(** * Numerical fitting library of Angular5-Deeplearn: a shallow embedding

    The TypeScript sources modelled here are
    - [src/src/libs/Deviates.ts]  (class [TSMT$Deviates]),
    - [src/unnamed/part_002]      (classes [TSMT$Bagging] and [TSMT$Bllsq]),
    - [src/unnamed/part_001]      (class [TSMT$LLSQ]),
    - [src/src/libs/Pllsq.ts]     (class [TSMT$Pllsq]).

    JavaScript numbers are modelled by [num]: [NaN] or a finite rational
    [Fin q].  The computations are carried out exactly over [Q]; the
    infinities of IEEE arithmetic are not represented. *)

From Stdlib Require Import ZArith QArith Qround Lqa Lia List.
From stdpp Require Import base gmap sets.
Import ListNotations.

Open Scope Q_scope.

(** ** JavaScript numbers *)

Inductive num : Type :=
| NaN
| Fin (q : Q).

Definition isNaN (x : num) : bool :=
  match x with NaN => true | Fin _ => false end.

(** Strict order on [Q] as a boolean. *)
Definition Qlt_bool (p q : Q) : bool := negb (Qle_bool q p).

(** [x < y]: false as soon as one side is [NaN]. *)
Definition nlt (x y : num) : bool :=
  match x, y with
  | Fin p, Fin q => Qlt_bool p q
  | _, _ => false
  end.

Definition nle (x y : num) : bool :=
  match x, y with
  | Fin p, Fin q => Qle_bool p q
  | _, _ => false
  end.

(** [x == y] on numbers. *)
Definition neqb (x y : num) : bool :=
  match x, y with
  | Fin p, Fin q => Qeq_bool p q
  | _, _ => false
  end.

Definition nlift2 (f : Q -> Q -> Q) (x y : num) : num :=
  match x, y with
  | Fin p, Fin q => Fin (f p q)
  | _, _ => NaN
  end.

Definition nadd := nlift2 Qplus.
Definition nsub := nlift2 Qminus.
Definition nmul := nlift2 Qmult.

(** Division; a zero divisor (an infinity or NaN in JavaScript) gives [NaN]. *)
Definition ndiv (x y : num) : num :=
  match x, y with
  | Fin p, Fin q => if Qeq_bool q 0 then NaN else Fin (p / q)
  | _, _ => NaN
  end.

(** JavaScript truthiness of a number: nonzero and not [NaN]. *)
Definition truthy (x : num) : bool :=
  match x with NaN => false | Fin q => negb (Qeq_bool q 0) end.

(** [Math.floor] and [Math.round] (halves round up) on a finite number. *)
Definition js_floor (q : Q) : Z := Qfloor q.
Definition js_round (q : Q) : Z := Qfloor (q + (1 # 2)).

(** Reading [a[i]] of a JavaScript array held as a list: [undefined]
    ([None]) outside [0 .. length - 1]. *)
Definition js_get {A : Type} (l : list A) (i : Z) : option A :=
  if (i <? 0)%Z then None else nth_error l (Z.to_nat i).

(** ** TSMT$Deviates *)
Module Deviates.

(** The static constants of the class. *)
Definition IA : Q := 16807.
Definition IM : Q := 2147483647.
Definition AM : Q := 1 / IM.
Definition IQ : Q := 127773.
Definition IR : Q := 2836.
Definition NTAB : Z := 32.
Definition NDIV : Q := 1 + (IM - 1) / inject_Z NTAB.
Definition EPS : Q := 12 # 100000000.
Definition RNMX : Q := 1 - EPS.

(** The instance fields; [_iv] is a JavaScript array, held as a finite map
    from indices to its defined entries. *)
Record dev : Type := mkDev {
  idum : Q;
  iv : gmap Z Q;
  normVal : num;
  u_ : num;
  s_ : num;
  a_ : num;
  b_ : num;
  a1 : num;
  a2 : num
}.

(** [constructor()] *)
Definition dev_new : dev :=
  mkDev 0 ∅ (Fin 0) (Fin 0) (Fin 1) (Fin 1) (Fin 1) (Fin 0) (Fin 0).

Definition set_gen (st : dev) (d : Q) (t : gmap Z Q) : dev :=
  mkDev d t (normVal st) (u_ st) (s_ st) (a_ st) (b_ st) (a1 st) (a2 st).

(** One step of the congruential generator with Schrage's decomposition:
    [k = floor(idum/IQ); idum = IA*(idum - k*IQ) - IR*k; if (idum < 0) idum += IM]. *)
Definition schrage (d : Q) : Q :=
  let k := inject_Z (js_floor (d / IQ)) in
  let d' := IA * (d - k * IQ) - IR * k in
  if Qlt_bool d' 0 then d' + IM else d'.

(** The seeding loop [for (j = len; j >= 0; j--)] with [len = NTAB + 7]:
    [fill (S j) d t] runs the iterations [j, j-1, ..., 0]. *)
Fixpoint fill (cnt : nat) (d : Q) (t : gmap Z Q) : Q * gmap Z Q :=
  match cnt with
  | O => (d, t)
  | S j =>
      let d' := schrage d in
      let t' := if (Z.of_nat j <? NTAB)%Z then <[Z.of_nat j := d']> t else t in
      fill j d' t'
  end.

Definition seed_of (start : num) : Q :=
  match start with
  | NaN => 1
  | Fin q => if Qlt_bool q 1 then 1 else q
  end.

(** [uniform(start, init)].  The local [iy] starts at 0 on every call and
    is set from [_iv[0]] only when [init] holds (the seeding loop has just
    defined [_iv[0]] there). *)
Definition uniform (start : num) (init : bool) (st : dev) : num * dev :=
  let '(d0, t0, iy) :=
    if init then
      let '(d, t) := fill (Z.to_nat (NTAB + 7) + 1) (seed_of start) ∅ in
      (d, t, default 0 (t !! 0%Z))
    else (idum st, iv st, 0) in
  let d1 := schrage d0 in
  let j := js_floor (iy / NDIV) in
  let iy' := t0 !! j in
  let t1 := <[j := d1]> t0 in
  let st' := set_gen st d1 t1 in
  match iy' with
  | None => (NaN, st')
  | Some y =>
      let temp := AM * y in
      (Fin (if Qlt_bool RNMX temp then RNMX else temp), st')
  end.

(** Field updates used by the derived generators. *)
Definition set_norm (st : dev) (nv : num) : dev :=
  mkDev (idum st) (iv st) nv (u_ st) (s_ st) (a_ st) (b_ st) (a1 st) (a2 st).

Definition set_us (st : dev) (u s : num) : dev :=
  mkDev (idum st) (iv st) (normVal st) u s (a_ st) (b_ st) (a1 st) (a2 st).

Definition set_gamma (st : dev) (a b x1 x2 : num) : dev :=
  mkDev (idum st) (iv st) (normVal st) (u_ st) (s_ st) a b x1 x2.

Section Derived.

(** [Math.log] and [Math.sqrt] are primitives of the platform; the
    derived generators are modelled for any such functions. *)
Variable ln : num -> num.
Variable sqrt : num -> num.

(** Each [while] loop is run with a [fuel] bound; [None] means the bound
    was exhausted. *)

(** [exponential(start, init)]: [while (tmp == 0.0) tmp = this.uniform(start, init);
    return -Math.log(tmp);] *)
Fixpoint exp_loop (fuel : nat) (start : num) (init : bool) (tmp : num) (st : dev)
  : option (num * dev) :=
  if neqb tmp (Fin 0) then
    match fuel with
    | O => None
    | S f => let '(t, st1) := uniform start init st in exp_loop f start init t st1
    end
  else Some (tmp, st).

Definition exponential (fuel : nat) (start : num) (init : bool) (st : dev)
  : option (num * dev) :=
  match exp_loop fuel start init (Fin 0) st with
  | None => None
  | Some (tmp, st1) => Some (nsub (Fin 0) (ln tmp), st1)
  end.

(** The parameter coercions of [normal] and [logistic]:
    [isNaN(mu) || mu < 0 ? 0.0 : mu] and [isNaN(sig) || sig < 1.0 ? 1.0 : sig]. *)
Definition coerce_mu (mu : num) : num :=
  if isNaN mu || nlt mu (Fin 0) then Fin 0 else mu.

Definition coerce_sig (sig : num) : num :=
  if isNaN sig || nlt sig (Fin 1) then Fin 1 else sig.

(** [if (init) { this._u = ...; this._s = ...; }] *)
Definition us_setup (mu sig : num) (init : bool) (st : dev) : dev :=
  if init then set_us st (coerce_mu mu) (coerce_sig sig) else st.

(** The polar rejection loop of [normal]:
    [while (rsq >= 1.0 || rsq == 0.0) { v1 = 2*uniform - 1; v2 = 2*uniform - 1; rsq = v1*v1 + v2*v2; }] *)
Fixpoint polar_loop (fuel : nat) (start : num) (init : bool) (v1 v2 rsq : num) (st : dev)
  : option (num * num * num * dev) :=
  if nle (Fin 1) rsq || neqb rsq (Fin 0) then
    match fuel with
    | O => None
    | S f =>
        let '(w1, st1) := uniform start init st in
        let '(w2, st2) := uniform start init st1 in
        let v1' := nsub (nmul (Fin 2) w1) (Fin 1) in
        let v2' := nsub (nmul (Fin 2) w2) (Fin 1) in
        polar_loop f start init v1' v2' (nadd (nmul v1' v1') (nmul v2' v2')) st2
    end
  else Some (v1, v2, rsq, st).

(** [normal(start, mu, sig, init)]; [v1] and [v2] start [undefined] ([NaN]). *)
Definition normal (fuel : nat) (start mu sig : num) (init : bool) (st : dev)
  : option (num * dev) :=
  let st1 := us_setup mu sig init st in
  if neqb (normVal st1) (Fin 0) then
    match polar_loop fuel start init NaN NaN (Fin 0) st1 with
    | None => None
    | Some (v1, v2, rsq, st2) =>
        let fac := sqrt (ndiv (nmul (Fin (-2)) (ln rsq)) rsq) in
        let st3 := set_norm st2 (nmul v1 fac) in
        Some (nadd (u_ st3) (nmul (nmul (s_ st3) v2) fac), st3)
    end
  else
    let fac := normVal st1 in
    let st2 := set_norm st1 (Fin 0) in
    Some (nadd (u_ st2) (nmul (s_ st2) fac), st2).

(** The parameter block of [gamma].  Its guard is [if (start)], the
    truthiness of the seed argument. *)
Definition gamma_setup (start alpha beta : num) (st : dev) : dev :=
  if truthy start then
    let a0 := if isNaN alpha || nle alpha (Fin 0) then Fin 1 else alpha in
    let a := if nlt a0 (Fin 1) then nadd a0 (Fin 1) else a0 in
    let b := if isNaN beta || nlt beta (Fin (1 # 10000)) then Fin (1 # 2) else beta in
    let x1 := nsub a (Fin (1 # 3)) in
    let x2 := ndiv (Fin 1) (sqrt (nmul (Fin 9) x1)) in
    set_gamma st a b x1 x2
  else st.

(** [while (v <= 0.0) { x = this.uniform(start, init); v = 1.0 + this._a2*x; }] *)
Fixpoint gamma_inner (fuel : nat) (start : num) (init : bool) (x v : num) (st : dev)
  : option (num * num * dev) :=
  if nle v (Fin 0) then
    match fuel with
    | O => None
    | S f =>
        let '(x', st1) := uniform start init st in
        gamma_inner f start init x' (nadd (Fin 1) (nmul (a2 st1) x')) st1
    end
  else Some (x, v, st).

(** The squeeze/accept loop of [gamma]. *)
Fixpoint gamma_outer (fuel : nat) (start : num) (init : bool) (u v x xSQ : num) (st : dev)
  : option (num * dev) :=
  if nlt (nsub (Fin 1) (nmul xSQ xSQ)) u &&
     nlt (nadd (nmul (Fin (1 # 2)) xSQ)
               (nmul (a1 st) (nadd (nsub (Fin 1) v) (ln v)))) (ln u) then
    match fuel with
    | O => None
    | S f =>
        match gamma_inner fuel start init x v st with
        | None => None
        | Some (x', v', st1) =>
            let v'' := nmul (nmul v' v') v' in
            let '(u', st2) := uniform start init st1 in
            gamma_outer f start init u' v'' x' (nmul x' x') st2
        end
    end
  else Some (ndiv (nmul (a1 st) v) (b_ st), st).

(** [gamma(start, alpha, beta, init)] *)
Definition gamma (fuel : nat) (start alpha beta : num) (init : bool) (st : dev)
  : option (num * dev) :=
  gamma_outer fuel start init (Fin 10) (Fin 0) (Fin 0) (Fin 0) (gamma_setup start alpha beta st).

(** [while (v*(1.0-v) == 0.0) v = this.uniform(start, init);] *)
Fixpoint logistic_loop (fuel : nat) (start : num) (init : bool) (v : num) (st : dev)
  : option (num * dev) :=
  if neqb (nmul v (nsub (Fin 1) v)) (Fin 0) then
    match fuel with
    | O => None
    | S f => let '(v', st1) := uniform start init st in logistic_loop f start init v' st1
    end
  else Some (v, st).

Definition LOGISTIC_C : Q := 551328895421792050 # 1000000000000000000.

(** [logistic(start, mu, sig, init)] *)
Definition logistic (fuel : nat) (start mu sig : num) (init : bool) (st : dev)
  : option (num * dev) :=
  let st1 := us_setup mu sig init st in
  match logistic_loop fuel start init (Fin 0) st1 with
  | None => None
  | Some (v, st2) =>
      Some (nadd (u_ st2)
                 (nmul (nmul (Fin LOGISTIC_C) (s_ st2)) (ln (ndiv v (nsub (Fin 1) v)))),
            st2)
  end.

(** A call of one of the public methods on the instance. *)
Inductive call : Type :=
| CUniform (start : num) (init : bool)
| CExponential (start : num) (init : bool)
| CNormal (start mu sig : num) (init : bool)
| CGamma (start alpha beta : num) (init : bool)
| CLogistic (start mu sig : num) (init : bool).

Definition exec (fuel : nat) (c : call) (st : dev) : option (num * dev) :=
  match c with
  | CUniform start init => Some (uniform start init st)
  | CExponential start init => exponential fuel start init st
  | CNormal start mu sig init => normal fuel start mu sig init st
  | CGamma start alpha beta init => gamma fuel start alpha beta init st
  | CLogistic start mu sig init => logistic fuel start mu sig init st
  end.

(** A sequence of calls on one instance. *)
Fixpoint run (fuel : nat) (cs : list call) (st : dev) : option dev :=
  match cs with
  | [] => Some st
  | c :: cs' =>
      match exec fuel c st with
      | None => None
      | Some (_, st1) => run fuel cs' st1
      end
  end.

End Derived.

End Deviates.

(** ** TSMT$Bagging *)
Module Bagging.
Import Deviates.

(** The shared static generator is seeded with the constant 1001. *)
Definition SEED : num := Fin 1001.

Definition bag_min : Q := -(499 # 1000).
Definition bag_max (n : nat) : Q := inject_Z (Z.of_nat n) - 1 + (499 # 1000).

(** [index = Math.floor(Math.round(min + r*(max - min))); index = Math.abs(index);]
    A [NaN] deviate gives a [NaN] index ([None]). *)
Definition bag_index (n : nat) (r : num) : option Z :=
  match r with
  | NaN => None
  | Fin q =>
      Some (Z.abs (js_floor (inject_Z (js_round (bag_min + q * (bag_max n - bag_min))))))
  end.

(** [data[index]]; [undefined] is [None]. *)
Definition read (data : list num) (idx : option Z) : option num :=
  match idx with None => None | Some i => js_get data i end.

(** Number of iterations of [for (i = 0; i < numSets; ++i)]. *)
Definition set_count (ns : num) : nat :=
  match ns with NaN => O | Fin q => Z.to_nat (Qceiling q) end.

(** [numSets == undefined || numSets == null || numSets < 1 ? n : Math.round(numSets)]
    ([get1DSamplesWithReplacement]; [None] is [undefined] or [null]). *)
Definition num_sets_1 (n : nat) (numSets : option num) : num :=
  match numSets with
  | None => Fin (inject_Z (Z.of_nat n))
  | Some NaN => NaN
  | Some (Fin q) => if Qlt_bool q 1 then Fin (inject_Z (Z.of_nat n)) else Fin (inject_Z (js_round q))
  end.

(** [numSets == undefined || isNaN(numSets) || numSets < 1 ? n : Math.round(numSets)]
    (the three other operations). *)
Definition num_sets (n : nat) (numSets : option num) : num :=
  match numSets with
  | None | Some NaN => Fin (inject_Z (Z.of_nat n))
  | Some (Fin q) => if Qlt_bool q 1 then Fin (inject_Z (Z.of_nat n)) else Fin (inject_Z (js_round q))
  end.

(** [m == undefined || isNaN(m) || m < 1 || m > n ? Math.floor(n/2) : Math.round(m)]
    ([get1DSamplesWithoutReplacement]). *)
Definition size_1 (n : nat) (m : option num) : num :=
  let half := Fin (inject_Z (js_floor (inject_Z (Z.of_nat n) / 2))) in
  match m with
  | None | Some NaN => half
  | Some (Fin q) =>
      if Qlt_bool q 1 || Qlt_bool (inject_Z (Z.of_nat n)) q then half
      else Fin (inject_Z (js_round q))
  end.

(** [m == undefined || m < 1 || m > n ? Math.floor(n/2) : m]
    ([get2DSamplesWithoutReplacement]: no [isNaN] test, no rounding). *)
Definition size_2 (n : nat) (m : option num) : num :=
  let half := Fin (inject_Z (js_floor (inject_Z (Z.of_nat n) / 2))) in
  match m with
  | None => half
  | Some mv =>
      if nlt mv (Fin 1) || nlt (Fin (inject_Z (Z.of_nat n))) mv then half else mv
  end.

(** The inner [for (j = 0; j < n; ++j)] loop of [get1DSamplesWithReplacement]. *)
Fixpoint draw1 (cnt n : nat) (data : list num) (acc : list (option num)) (st : dev)
  : list (option num) * dev :=
  match cnt with
  | O => (acc, st)
  | S c =>
      let '(r, st1) := uniform SEED false st in
      draw1 c n data (acc ++ [read data (bag_index n r)]) st1
  end.

Fixpoint sets1 (cnt n : nat) (data : list num) (out : list (list (option num))) (st : dev)
  : list (list (option num)) * dev :=
  match cnt with
  | O => (out, st)
  | S c =>
      let '(set, st1) := draw1 n n data [] st in
      sets1 c n data (out ++ [set]) st1
  end.

(** [get1DSamplesWithReplacement(data, numSets)]; the generator state is
    threaded through, [None] stands for [undefined] or [null]. *)
Definition get1DSamplesWithReplacement (data : option (list num)) (numSets : option num)
  (st : dev) : list (list (option num)) * dev :=
  match data with
  | None | Some [] => ([], st)
  | Some l =>
      let n := length l in
      let ns := num_sets_1 n numSets in
      let '(_, st1) := uniform SEED true st in
      sets1 (set_count ns) n l [] st1
  end.

(** [ISamples] *)
Record samples : Type := mkSamples { sx : list (option num); sy : list (option num) }.

Fixpoint draw2 (cnt n : nat) (x y : list num) (acc : samples) (st : dev) : samples * dev :=
  match cnt with
  | O => (acc, st)
  | S c =>
      let '(r, st1) := uniform SEED false st in
      let idx := bag_index n r in
      draw2 c n x y (mkSamples (sx acc ++ [read x idx]) (sy acc ++ [read y idx])) st1
  end.

Fixpoint sets2 (cnt n : nat) (x y : list num) (out : list samples) (st : dev)
  : list samples * dev :=
  match cnt with
  | O => (out, st)
  | S c =>
      let '(set, st1) := draw2 n n x y (mkSamples [] []) st in
      sets2 c n x y (out ++ [set]) st1
  end.

(** [get2DSamplesWithReplacement(x, y, numSets)] *)
Definition get2DSamplesWithReplacement (x y : option (list num)) (numSets : option num)
  (st : dev) : list samples * dev :=
  match x, y with
  | Some xl, Some yl =>
      let n := length xl in
      if (n =? 0)%nat then ([], st)
      else if negb (length yl =? n)%nat then ([], st)
      else
        let ns := num_sets n numSets in
        let '(_, st1) := uniform SEED true st in
        sets2 (set_count ns) n xl yl [] st1
  | _, _ => ([], st)
  end.

(** The [sampledIndices] array: its defined entries, keyed by index
    ([None] is the property named by a [NaN] index). *)
Abbreviation marks := (gset (option Z)).

(** [sampledIndices.length = 0] deletes the array-index entries. *)
Definition reset (s : marks) : marks := filter (fun k => k = None) s.

(** [while (tmp.length < m) { ... }] of [get1DSamplesWithoutReplacement]. *)
Fixpoint pick1 (fuel n : nat) (m : num) (data : list num) (tmp : list (option num))
  (si : marks) (st : dev) : option (list (option num) * marks * dev) :=
  if nlt (Fin (inject_Z (Z.of_nat (length tmp)))) m then
    match fuel with
    | O => None
    | S f =>
        let '(r, st1) := uniform SEED false st in
        let idx := bag_index n r in
        if bool_decide (idx ∈ si) then pick1 f n m data tmp si st1
        else pick1 f n m data (tmp ++ [read data idx]) ({[idx]} ∪ si) st1
    end
  else Some (tmp, si, st).

Fixpoint subsets1 (fuel cnt n : nat) (m : num) (data : list num)
  (out : list (list (option num))) (si : marks) (st : dev)
  : option (list (list (option num)) * dev) :=
  match cnt with
  | O => Some (out, st)
  | S c =>
      match pick1 fuel n m data [] (reset si) st with
      | None => None
      | Some (set, si1, st1) => subsets1 fuel c n m data (out ++ [set]) si1 st1
      end
  end.

(** [get1DSamplesWithoutReplacement(data, m, numSets)] *)
Definition get1DSamplesWithoutReplacement (fuel : nat) (data : option (list num))
  (m numSets : option num) (st : dev) : option (list (list (option num)) * dev) :=
  match data with
  | None | Some [] => Some ([], st)
  | Some l =>
      let n := length l in
      let m' := size_1 n m in
      let ns := num_sets n numSets in
      let '(_, st1) := uniform SEED true st in
      subsets1 fuel (set_count ns) n m' l [] ∅ st1
  end.

Fixpoint pick2 (fuel n : nat) (m : num) (x y : list num) (acc : samples)
  (si : marks) (st : dev) : option (samples * marks * dev) :=
  if nlt (Fin (inject_Z (Z.of_nat (length (sx acc))))) m then
    match fuel with
    | O => None
    | S f =>
        let '(r, st1) := uniform SEED false st in
        let idx := bag_index n r in
        if bool_decide (idx ∈ si) then pick2 f n m x y acc si st1
        else pick2 f n m x y (mkSamples (sx acc ++ [read x idx]) (sy acc ++ [read y idx]))
               ({[idx]} ∪ si) st1
    end
  else Some (acc, si, st).

Fixpoint subsets2 (fuel cnt n : nat) (m : num) (x y : list num)
  (out : list samples) (si : marks) (st : dev) : option (list samples * dev) :=
  match cnt with
  | O => Some (out, st)
  | S c =>
      match pick2 fuel n m x y (mkSamples [] []) (reset si) st with
      | None => None
      | Some (set, si1, st1) => subsets2 fuel c n m x y (out ++ [set]) si1 st1
      end
  end.

(** [get2DSamplesWithoutReplacement(x, y, m, numSets)] *)
Definition get2DSamplesWithoutReplacement (fuel : nat) (x y : option (list num))
  (m numSets : option num) (st : dev) : option (list samples * dev) :=
  match x, y with
  | Some xl, Some yl =>
      let n := length xl in
      if (n =? 0)%nat then Some ([], st)
      else if negb (length yl =? n)%nat then Some ([], st)
      else
        let m' := size_2 n m in
        let ns := num_sets n numSets in
        let '(_, st1) := uniform SEED true st in
        subsets2 fuel (set_count ns) n m' xl yl [] ∅ st1
  | _, _ => Some ([], st)
  end.

End Bagging.

(** ** TSMT$LLSQ *)
Module LLSQ.

(** [ILLSQResult]: the model is [a*x + b]. *)
Record result : Type := mkResult {
  ra : Q; rb : Q; siga : Q; sigb : Q; chi2 : Q; rr : Q
}.

(** Evaluating [_x.length] on [null] raises a [TypeError]. *)
Inductive exn : Type := TypeError.

Definition zero_result : result := mkResult 0 0 0 0 0 0.

Section Fit.

(** [Math.sqrt] *)
Variable sqrt : Q -> Q.

(** The computation of [fit] once its guard has passed; the entries are
    finite numbers, and [Q]'s division by zero (0) stands where
    JavaScript would produce an infinity or [NaN]. *)
Definition fit_core (xs ys : list Q) : result :=
  let n := inject_Z (Z.of_nat (length xs)) in
  (* for (i = 0; i < n; ++i) { sx += _x[i]; sy += _y[i]; } *)
  let '(sx, sy) := fold_left (fun '(sx, sy) '(xi, yi) => (sx + xi, sy + yi))
                             (combine xs ys) (0, 0) in
  let ss := n in
  let sxoss := sx / ss in
  let ybar := sy / ss in
  (* for (i = 0; i < n; ++i) { t = _x[i] - sxoss; st2 += t*t; b += t*_y[i]; } *)
  let '(st2, b0) := fold_left (fun '(st2, b) '(xi, yi) =>
                                 let t := xi - sxoss in (st2 + t * t, b + t * yi))
                              (combine xs ys) (0, 0) in
  let b := b0 / st2 in
  let a := (sy - sx * b) / ss in
  let siga0 := sqrt ((1 + sx * sx / (ss * st2)) / ss) in
  let sigb0 := sqrt (1 / st2) in
  (* for (i = 0; i < n; ++i) { w = _y[i] - ybar; t = _y[i] - a - b*_x[i]; chi2 += t*t; s += w*w; } *)
  let '(chi2, s) := fold_left (fun '(chi2, s) '(xi, yi) =>
                                 let w := yi - ybar in
                                 let t := yi - a - b * xi in
                                 (chi2 + t * t, s + w * w))
                              (combine xs ys) (0, 0) in
  let sigdat := if Qlt_bool 2 n then sqrt (chi2 / (n - 2)) else 1 in
  let r := 1 - chi2 / s in
  mkResult b a (siga0 * sigdat) (sigb0 * sigdat) chi2 r.

(** [TSMT$LLSQ.fit(_x, _y)]; [None] is [null]. *)
Definition fit (x y : option (list Q)) : exn + result :=
  match x with
  | None => inl TypeError
  | Some xs =>
      let n := length xs in
      if (n <? 3)%nat then inr zero_result
      else
        match y with
        | None => inl TypeError
        | Some ys => if negb (length ys =? n)%nat then inr zero_result
                     else inr (fit_core xs ys)
        end
  end.

End Fit.

End LLSQ.

(** ** TSMT$Pllsq *)
Module Pllsq.

(** The instance fields [_c] and [_n]; the [_matrix] helper is the
    external solver below. *)
Record pllsq : Type := mkPllsq { c_ : list num; n_ : num }.

(** [constructor()] *)
Definition pllsq_new : pllsq := mkPllsq [] (Fin 0).

(** The returned object: [{coef, rms}], and the [empty] literal
    [{coef: [], r: 0, rms: 0}] with its extra [r] field. *)
Record result : Type := mkResult { coef : list num; r_field : option num; rms : num }.

Definition empty : result := mkResult [] (Some (Fin 0)) (Fin 0).

(** [eval(x)]: Horner's scheme over [_c], or 0 when [_c] is empty. *)
Definition eval (st : pllsq) (x : num) : num :=
  let c := c_ st in
  if (length c =? 0)%nat then Fin 0
  else
    match rev c with
    | [] => Fin 0
    | last :: rest => fold_left (fun v ci => nadd (nmul x v) ci) rest last
    end.

(** [m = isNaN(m) || m < 1 ? 1 : Math.round(m) + 1] *)
Definition coef_count (m : num) : Z :=
  match m with
  | NaN => 1
  | Fin q => if Qlt_bool q 1 then 1 else (js_round q + 1)%Z
  end.

(** [tmp[1] = xj; for (i = 2; i <= len; ++i) tmp[i] = tmp[i-1]*xj;]
    as the list [tmp[1], ..., tmp[len]]. *)
Fixpoint powers (k : nat) (xj cur : num) : list num :=
  match k with
  | O => []
  | S k' => cur :: powers k' xj (nmul cur xj)
  end.

(** One iteration [j] of the accumulation loop:
    [b[0] += yj] and, for [i = 1 .. len], [asums[i] += tmp[i]] and
    [if (i < m) b[i] += tmp[i]*yj]. *)
Definition accumulate (m : nat) (len : nat) (xj yj : num)
  (acc : list num * list num) : list num * list num :=
  let '(asums, b) := acc in
  let tmp := powers len xj xj in
  let b1 := alter (fun v => nadd v yj) 0%nat b in
  let '(_, asums', b') :=
    fold_left (fun '(i, asums, b) ti =>
                 (S i, alter (fun v => nadd v ti) i asums,
                  if (i <? m)%nat then alter (fun v => nadd v (nmul ti yj)) i b else b))
              tmp (1%nat, asums, b1) in
  (asums', b').

Section Fit.

(** [this._matrix.fromArray(a); this._matrix.solve(b)]: the dense solver
    of [TSMT$Matrix], an external collaborator. *)
Variable solve : list (list num) -> list num -> list num.
(** [Math.sqrt] *)
Variable sqrt : num -> num.

(** [fit(x, y, m)]; [None] is [null] (or [undefined]). *)
Definition fit (x y : option (list num)) (m : num) (st : pllsq) : result * pllsq :=
  match x, y with
  | Some xs, Some ys =>
      let n := length xs in
      let mc := coef_count m in
      if Z.leb (Z.of_nat n) mc then (empty, st)
      else
        let m' := Z.to_nat mc in
        let len := (2 * (m' - 1))%nat in
        let asums0 := Fin (inject_Z (Z.of_nat n)) :: repeat (Fin 0) len in
        let b0 := repeat (Fin 0) m' in
        let '(_, (asums, b)) :=
          fold_left (fun '(j, acc) xj =>
                       (S j, accumulate m' len xj (default NaN (ys !! j)) acc))
                    xs (0%nat, (asums0, b0)) in
        let a := map (fun i => map (fun j => default NaN (asums !! (i + j)%nat)) (seq 0 m'))
                     (seq 0 m') in
        let c := solve a b in
        let st' := mkPllsq c (Fin (inject_Z mc)) in
        let s := fold_left (fun s '(i, xi) =>
                              let t := nsub (eval st' xi) (default NaN (ys !! i)) in
                              nadd s (nmul t t))
                           (combine (seq 0 n) xs) (Fin 0) in
        (mkResult c None (sqrt (ndiv s (Fin (inject_Z (Z.of_nat n))))), st')
  | _, _ => (empty, st)
  end.

End Fit.

End Pllsq.

(** ** TSMT$Bllsq (second part of [src/unnamed/part_002]) *)
Module Bllsq.
Import Deviates Bagging.

(** [IBagggedLinearFit] *)
Record bfit : Type := mkBfit { ba : num; bb : num; fits : list LLSQ.result }.

(** The [empty] literal [{a: 0, b: 0, fits: []}]. *)
Definition empty : bfit := mkBfit (Fin 0) (Fin 0) [].

(** An array of a bag as handed to [TSMT$LLSQ.fit], whose model works on
    finite entries; [None] when an entry is [undefined] or [NaN], which the
    exact model of [TSMT$LLSQ.fit] does not cover. *)
Fixpoint fin_list (l : list (option num)) : option (list Q) :=
  match l with
  | [] => Some []
  | Some (Fin q) :: l' =>
      match fin_list l' with
      | Some qs => Some (q :: qs)
      | None => None
      end
  | _ :: _ => None
  end.

Section Fit.

(** [Math.sqrt], as used by [TSMT$LLSQ.fit]. *)
Variable sqrt : Q -> Q.

(** [for (i = 0; i < numSets; ++i) { fit = TSMT$LLSQ.fit(bag[i].x, bag[i].y);
    a_ave += fit.a; b_ave += fit.b; fitArray.push(fit); }]: reading [x] of
    [bag[i]] past the end of [bag] ([undefined]) raises a [TypeError], and
    so does [TSMT$LLSQ.fit]. *)
Fixpoint fit_loop (i cnt : nat) (bag : list samples) (a_ave b_ave : num)
  (fitArray : list LLSQ.result) : option (LLSQ.exn + (num * num * list LLSQ.result)) :=
  match cnt with
  | O => Some (inr (a_ave, b_ave, fitArray))
  | S c =>
      match bag !! i with
      | None => Some (inl LLSQ.TypeError)
      | Some s =>
          match fin_list (sx s), fin_list (sy s) with
          | Some xs, Some ys =>
              match LLSQ.fit sqrt (Some xs) (Some ys) with
              | inl e => Some (inl e)
              | inr f =>
                  fit_loop (S i) c bag (nadd a_ave (Fin (LLSQ.ra f)))
                           (nadd b_ave (Fin (LLSQ.rb f))) (fitArray ++ [f])
              end
          | _, _ => None
          end
      end
  end.

(** The loop over the bags, then [a_ave /= numSets; b_ave /= numSets]. *)
Definition average (ns : num) (bag : list samples) (st : dev)
  : option ((LLSQ.exn + bfit) * dev) :=
  match fit_loop 0 (set_count ns) bag (Fin 0) (Fin 0) [] with
  | None => None
  | Some (inl e) => Some (inl e, st)
  | Some (inr (a_ave, b_ave, fitArray)) =>
      Some (inr (mkBfit (ndiv a_ave ns) (ndiv b_ave ns) fitArray), st)
  end.

(** [TSMT$Bllsq.bagFit(x, y, numSets)]; the data are finite numbers, [None]
    is [null] or [undefined], and the state of the shared generator of
    [TSMT$Bagging] is threaded through. *)
Definition bagFit (x y : option (list Q)) (numSets : option num) (st : dev)
  : option ((LLSQ.exn + bfit) * dev) :=
  match x, y with
  | Some xl, Some yl =>
      let n := length xl in
      if (n <? 3)%nat then Some (inr empty, st)
      else
        let ns := num_sets n numSets in
        let '(bag, st1) :=
          get2DSamplesWithReplacement (Some (map Fin xl)) (Some (map Fin yl)) (Some ns) st in
        average ns bag st1
  | _, _ => Some (inr empty, st)
  end.

(** [TSMT$Bllsq.subbagFit(x, y, m, numSets)]: [m] is coerced as in
    [get1DSamplesWithoutReplacement]; [fuel] bounds the sampling loops. *)
Definition subbagFit (fuel : nat) (x y : option (list Q)) (m numSets : option num) (st : dev)
  : option ((LLSQ.exn + bfit) * dev) :=
  match x, y with
  | Some xl, Some yl =>
      let n := length xl in
      if (n <? 3)%nat then Some (inr empty, st)
      else
        let m' := size_1 n m in
        let ns := num_sets n numSets in
        match get2DSamplesWithoutReplacement fuel (Some (map Fin xl)) (Some (map Fin yl))
                (Some m') (Some ns) st with
        | None => None
        | Some (bag, st1) => average ns bag st1
        end
  | _, _ => Some (inr empty, st)
  end.

End Fit.

End Bllsq.

(** * Properties *)

Import Deviates Bagging.

(** Entries of the shuffle table lie in [0, IM). *)
Definition tbl_range (t : gmap Z Q) : Prop :=
  forall j q, t !! j = Some q -> 0 <= q < IM.

(** The generator state reached after seeding: [_idum] and the 32 slots
    of [_iv] lie in [0, IM). *)
Definition gen_ok (st : dev) : Prop :=
  0 <= idum st < IM /\ tbl_range (iv st) /\
  forall j, (0 <= j < NTAB)%Z -> is_Some (iv st !! j).

(** An output entry that is a copy of an entry of the source array. *)
Definition from_data (data : list num) (e : option num) : Prop :=
  exists v, e = Some v /\ In v data.

(** The [k]-th x and the [k]-th y of a 2D output come from one source index. *)
Definition from_pair (x y : list num) (ex ey : option num) : Prop :=
  exists i vx vy, nth_error x i = Some vx /\ nth_error y i = Some vy /\
                  ex = Some vx /\ ey = Some vy.

(** [_u] is a number [>= 0] and [_s] a number [>= 1]. *)
Definition params_ok (st : dev) : Prop :=
  (exists u, u_ st = Fin u /\ 0 <= u) /\ (exists s, s_ st = Fin s /\ 1 <= s).

Definition same_us (st st' : dev) : Prop := u_ st' = u_ st /\ s_ st' = s_ st.

(** The two coordinate lists of a 2D output set are pairwise copies of
    entries of the source arrays at one index. *)
Definition pairs_ok (x y : list num) (s : samples) : Prop :=
  Forall2 (from_pair x y) (sx s) (sy s).




(** The point [(x, y)] is the pair [(xl[i], yl[i])] of the source arrays
    at some index [i]. *)
Definition pair_of (xl yl : list Q) (p : Q * Q) : Prop :=
  exists i, nth_error xl i = Some (fst p) /\ nth_error yl i = Some (snd p).

(** [q] is an integer in [1, IM - 1]. *)
Definition pint (q : Q) : Prop :=
  exists z, q == inject_Z z /\ (0 < z < 2147483647)%Z.

(** The generator state reached from an integer seed: [_idum] and every
    entry of [_iv] are integers in [1, IM - 1], and the 32 slots of [_iv]
    are defined. *)
Definition gen_pos (st : dev) : Prop :=
  pint (idum st) /\ (forall j q, iv st !! j = Some q -> pint q) /\
  forall j, (0 <= j < NTAB)%Z -> is_Some (iv st !! j).

(** What a call [uniform(start, init)] starts from: with [init], a seed
    that is (after the coercion of seeds below 1) an integer in
    [1, IM - 1]; without, a state reached from such a seed. *)
Definition gen_pre (start : num) (init : bool) (st : dev) : Prop :=
  if init then pint (seed_of start) else gen_pos st.

(** A bag of [TSMT$Bllsq] whose coordinates are all finite numbers, the
    points [ps], with [P ps]. *)
Definition bag_ok (P : list (Q * Q) -> Prop) (s : samples) : Prop :=
  exists ps, Bllsq.fin_list (sx s) = Some (map fst ps) /\
             Bllsq.fin_list (sy s) = Some (map snd ps) /\ P ps.

(** The entries drawn so far are the source entries at distinct indices
    in [0, n), and the marked indices are exactly these. *)
Definition drawn (n : nat) (idxs : list Z) (si : marks) : Prop :=
  NoDup idxs /\ Forall (fun i => (0 <= i < Z.of_nat n)%Z) idxs /\
  forall j, Some j ∈ si <-> In j idxs.

(** One set without replacement: the source entries at [k] distinct
    indices in [0, n). *)
Definition distinct_draw (data : list num) (k : Z) (set : list (option num)) : Prop :=
  exists idxs, set = map (js_get data) idxs /\ NoDup idxs /\
               Forall (fun i => (0 <= i < Z.of_nat (length data))%Z) idxs /\ Z.of_nat (length idxs) = k.

(** One 2D set without replacement: the x and y entries at distinct
    indices in [0, n). *)
Definition distinct_draw2 (x y : list num) (s : samples) : Prop :=
  exists idxs, sx s = map (js_get x) idxs /\ sy s = map (js_get y) idxs /\ NoDup idxs /\
               Forall (fun i => (0 <= i < Z.of_nat (length x))%Z) idxs.

Lemma Qlt_bool_iff (p q : Q) : Qlt_bool p q = true <-> p < q.
Proof.
  unfold Qlt_bool. rewrite negb_true_iff. split; intro H.
  - apply Qnot_le_lt. intro H'. apply Qle_bool_iff in H'. congruence.
  - destruct (Qle_bool q p) eqn:E; [|reflexivity].
    apply Qle_bool_iff in E. exfalso. exact (Qlt_not_le _ _ H E).
Qed.

Lemma Qlt_bool_false (p q : Q) : Qlt_bool p q = false -> q <= p.
Proof.
  intro H. apply Qnot_lt_le. intro H'. apply Qlt_bool_iff in H'. congruence.
Qed.

Lemma inject_Z_le (a b : Z) : (a <= b)%Z -> inject_Z a <= inject_Z b.
Proof. intro H. rewrite <- Zle_Qle. exact H. Qed.

(** ** The generator stays in [0, IM) *)

Lemma schrage_range (d : Q) : 0 <= d < IM -> 0 <= schrage d < IM.
Proof.
  intros [H0 H1]. unfold schrage, js_floor.
  set (k := Qfloor (d / IQ)).
  assert (Hk1 : inject_Z k <= d / IQ) by apply Qfloor_le.
  assert (Hk2 : d / IQ < inject_Z (k + 1)) by apply Qlt_floor.
  rewrite inject_Z_plus in Hk2. change (inject_Z 1) with 1 in Hk2.
  unfold IQ, IM, IA, IR in *.
  change (d / 127773) with (d * (1 # 127773)) in *.
  assert (Hk0 : (0 <= k)%Z).
  { destruct (Z_lt_le_dec k 0) as [Hn|Hn]; [|exact Hn].
    assert (inject_Z k <= inject_Z (-1)) by (apply inject_Z_le; lia).
    change (inject_Z (-1)) with (-1) in *. exfalso. lra. }
  assert (Hk3 : (k <= 16807)%Z).
  { destruct (Z_lt_le_dec 16807 k) as [Hn|Hn]; [|exact Hn].
    assert (inject_Z 16808 <= inject_Z k) by (apply inject_Z_le; lia).
    change (inject_Z 16808) with 16808 in *. exfalso. lra. }
  assert (inject_Z 0 <= inject_Z k) by (apply inject_Z_le; lia).
  assert (inject_Z k <= inject_Z 16807) by (apply inject_Z_le; lia).
  change (inject_Z 0) with 0 in *. change (inject_Z 16807) with 16807 in *.
  destruct (Qlt_bool _ 0) eqn:E.
  - apply Qlt_bool_iff in E. split; nra.
  - apply Qlt_bool_false in E. split; nra.
Qed.

Lemma tbl_range_insert (t : gmap Z Q) (j : Z) (q : Q) :
  tbl_range t -> 0 <= q < IM -> tbl_range (<[j := q]> t).
Proof.
  intros Ht Hq j0 q0 Hl. destruct (decide (j = j0)) as [->|Hne].
  - rewrite lookup_insert_eq in Hl. injection Hl as <-. exact Hq.
  - rewrite lookup_insert_ne in Hl by exact Hne. exact (Ht _ _ Hl).
Qed.

Lemma fill_ok (cnt : nat) (d : Q) (t : gmap Z Q) :
  0 <= d < IM -> tbl_range t ->
  let '(d', t') := fill cnt d t in
  0 <= d' < IM /\ tbl_range t' /\
  (forall j, is_Some (t !! j) -> is_Some (t' !! j)) /\
  (forall j, (0 <= j < Z.of_nat cnt)%Z -> (j < NTAB)%Z -> is_Some (t' !! j)).
Proof.
  revert d t. induction cnt as [|c IH]; intros d t Hd Ht; simpl.
  - split; [exact Hd|]. split; [exact Ht|]. split; [auto|]. intros j Hj. lia.
  - pose proof (schrage_range d Hd) as Hd'.
    set (t1 := if (Z.of_nat c <? NTAB)%Z then <[Z.of_nat c := schrage d]> t else t).
    assert (Ht1 : tbl_range t1)
      by (unfold t1; destruct (_ <? _)%Z; [apply tbl_range_insert|]; assumption).
    assert (Hsub : forall j, is_Some (t !! j) -> is_Some (t1 !! j)).
    { intros j Hj. unfold t1. destruct (_ <? _)%Z; [|exact Hj].
      destruct (decide (Z.of_nat c = j)) as [->|Hne].
      - rewrite lookup_insert_eq. eauto.
      - rewrite lookup_insert_ne by exact Hne. exact Hj. }
    specialize (IH (schrage d) t1 Hd' Ht1).
    destruct (fill c (schrage d) t1) as [d' t'].
    destruct IH as (IH1 & IH2 & IH3 & IH4).
    split; [exact IH1|]. split; [exact IH2|]. split.
    + intros j Hj. apply IH3, Hsub, Hj.
    + intros j Hj HjN. destruct (decide (j = Z.of_nat c)) as [->|Hne].
      * apply IH3. unfold t1. replace (Z.of_nat c <? NTAB)%Z with true by lia.
        rewrite lookup_insert_eq. eauto.
      * apply IH4; lia.
Qed.

Lemma slot_range (y : Q) : 0 <= y < IM -> (0 <= js_floor (y / NDIV) < NTAB)%Z.
Proof.
  intros [H0 H1]. unfold js_floor, Qdiv.
  change (Qinv NDIV) with (32 # 2147483678).
  set (k := Qfloor (y * (32 # 2147483678))).
  assert (Hk1 : inject_Z k <= y * (32 # 2147483678)) by apply Qfloor_le.
  assert (Hk2 : y * (32 # 2147483678) < inject_Z (k + 1)) by apply Qlt_floor.
  rewrite inject_Z_plus in Hk2. change (inject_Z 1) with 1 in Hk2.
  unfold IM, NTAB in *. split.
  - destruct (Z_lt_le_dec k 0) as [Hn|Hn]; [|exact Hn].
    assert (inject_Z k <= inject_Z (-1)) by (apply inject_Z_le; lia).
    change (inject_Z (-1)) with (-1) in *. exfalso. lra.
  - destruct (Z_lt_le_dec k 32) as [Hn|Hn]; [exact Hn|].
    assert (inject_Z 32 <= inject_Z k) by (apply inject_Z_le; lia).
    change (inject_Z 32) with 32 in *. exfalso. lra.
Qed.

(** The value returned for a table entry lies in [0, 1]. *)
Lemma clamp_range (y : Q) :
  0 <= y < IM ->
  0 <= (if Qlt_bool RNMX (AM * y) then RNMX else AM * y) <= 1.
Proof.
  intros [H0 H1]. unfold AM, RNMX, EPS, IM in *.
  change (1 / 2147483647) with (1 # 2147483647).
  destruct (Qlt_bool _ _) eqn:E.
  - split; unfold Qle; simpl; lia.
  - apply Qlt_bool_false in E. split; lra.
Qed.

(** The common tail of [uniform]: one generator step, one table read
    and one table write. *)
Lemma uniform_tail_ok (st : dev) (d0 iy : Q) (t0 : gmap Z Q) :
  0 <= d0 < IM -> tbl_range t0 ->
  (forall j, (0 <= j < NTAB)%Z -> is_Some (t0 !! j)) ->
  0 <= iy < IM ->
  gen_ok (set_gen st (schrage d0) (<[js_floor (iy / NDIV) := schrage d0]> t0)) /\
  exists y, t0 !! js_floor (iy / NDIV) = Some y /\ 0 <= y < IM.
Proof.
  intros Hd Ht Hfull Hiy.
  pose proof (slot_range iy Hiy) as Hj.
  pose proof (schrage_range d0 Hd) as Hd1.
  split.
  - split; [exact Hd1|]. split.
    + apply tbl_range_insert; assumption.
    + intros j Hj'. simpl. destruct (decide (js_floor (iy / NDIV) = j)) as [<-|Hne].
      * rewrite lookup_insert_eq. eauto.
      * rewrite lookup_insert_ne by exact Hne. apply Hfull, Hj'.
  - destruct (Hfull _ Hj) as [y Hy]. exists y. split; [exact Hy|]. exact (Ht _ _ Hy).
Qed.

Lemma js_floor_zero : js_floor (0 / NDIV) = 0%Z.
Proof. reflexivity. Qed.

Lemma uniform_next_ok (start : num) (st : dev) :
  gen_ok st ->
  gen_ok (snd (uniform start false st)) /\
  exists q, fst (uniform start false st) = Fin q /\ 0 <= q <= 1.
Proof.
  intros (Hd & Ht & Hfull).
  assert (H0 : 0 <= 0 < IM) by (unfold IM; lra).
  destruct (uniform_tail_ok st (idum st) 0 (iv st) Hd Ht Hfull H0) as [Hok (y & Hy & Hyr)].
  unfold uniform. cbv beta iota zeta. rewrite Hy. split; [exact Hok|].
  eexists. split; [reflexivity|]. apply clamp_range, Hyr.
Qed.

Lemma seed_of_ge (start : num) : 1 <= seed_of start.
Proof.
  destruct start as [|q]; simpl; [lra|].
  destruct (Qlt_bool q 1) eqn:E; [lra|]. apply Qlt_bool_false in E. exact E.
Qed.

Lemma uniform_init_ok (start : num) (st : dev) :
  seed_of start < IM ->
  gen_ok (snd (uniform start true st)) /\
  exists q, fst (uniform start true st) = Fin q /\ 0 <= q <= 1.
Proof.
  intro Hs. pose proof (seed_of_ge start) as Hs1.
  assert (Hd : 0 <= seed_of start < IM) by lra.
  assert (He : tbl_range (∅ : gmap Z Q)) by (intros j q Hl; rewrite lookup_empty in Hl; discriminate).
  pose proof (fill_ok (Z.to_nat (NTAB + 7) + 1) (seed_of start) ∅ Hd He) as Hf.
  unfold uniform. destruct (fill _ _ _) as [d t] eqn:Ef.
  destruct Hf as (Hd' & Ht & _ & Hfull).
  assert (Hfull' : forall j, (0 <= j < NTAB)%Z -> is_Some (t !! j))
    by (intros j Hj; apply Hfull; unfold NTAB in *; lia).
  destruct (Hfull' 0%Z) as [y0 Hy0]; [unfold NTAB; lia|].
  assert (Hiy : 0 <= default 0 (t !! 0%Z) < IM) by (rewrite Hy0; exact (Ht _ _ Hy0)).
  destruct (uniform_tail_ok st d (default 0 (t !! 0%Z)) t Hd' Ht Hfull' Hiy)
    as [Hok (y & Hy & Hyr)].
  cbv beta iota zeta. rewrite Hy. split; [exact Hok|].
  eexists. split; [reflexivity|]. apply clamp_range, Hyr.
Qed.

Lemma seed_1001_ok (st : dev) :
  gen_ok (snd (uniform SEED true st)).
Proof. apply uniform_init_ok. unfold IM. reflexivity. Qed.

(** ** Index selection of the resampler *)

Lemma bag_index_range (n : nat) (q : Q) :
  (1 <= n)%nat -> 0 <= q <= 1 ->
  exists i, bag_index n (Fin q) = Some i /\ (0 <= i < Z.of_nat n)%Z.
Proof.
  intros Hn [Hq0 Hq1]. unfold bag_index, js_round, js_floor. rewrite Qfloor_Z.
  unfold bag_min, bag_max.
  set (N := inject_Z (Z.of_nat n)).
  set (x := -(499 # 1000) + q * (N - 1 + (499 # 1000) - -(499 # 1000)) + (1 # 2)).
  assert (HN : 1 <= N) by (unfold N; change 1 with (inject_Z 1); apply inject_Z_le; lia).
  assert (Hx0 : 0 < x) by (unfold x; nra).
  assert (Hx1 : x < N) by (unfold x; nra).
  set (k := Qfloor x).
  assert (Hk1 : inject_Z k <= x) by apply Qfloor_le.
  assert (Hk2 : x < inject_Z (k + 1)) by apply Qlt_floor.
  rewrite inject_Z_plus in Hk2. change (inject_Z 1) with 1 in Hk2.
  assert (Hk0 : (0 <= k)%Z).
  { destruct (Z_lt_le_dec k 0) as [Hl|Hl]; [|exact Hl].
    assert (inject_Z k <= inject_Z (-1)) by (apply inject_Z_le; lia).
    change (inject_Z (-1)) with (-1) in *. exfalso. lra. }
  assert (Hkn : (k < Z.of_nat n)%Z).
  { destruct (Z_lt_le_dec k (Z.of_nat n)) as [Hl|Hl]; [exact Hl|].
    assert (N <= inject_Z k) by (apply inject_Z_le; exact Hl). exfalso. lra. }
  exists k. split; [f_equal; apply Z.abs_eq; exact Hk0|lia].
Qed.

Lemma js_get_in_range (l : list num) (i : Z) :
  (0 <= i < Z.of_nat (length l))%Z ->
  exists v, js_get l i = Some v /\ nth_error l (Z.to_nat i) = Some v.
Proof.
  intro Hi. unfold js_get. replace (i <? 0)%Z with false by lia.
  destruct (nth_error l (Z.to_nat i)) as [v|] eqn:E; [eauto|].
  apply nth_error_None in E. lia.
Qed.

Lemma read_from_data (data : list num) (q : Q) :
  data <> [] -> 0 <= q <= 1 ->
  from_data data (read data (bag_index (length data) (Fin q))).
Proof.
  intros Hd Hq. destruct data as [|a l]; [congruence|].
  destruct (bag_index_range (length (a :: l)) q) as (i & Hi & Hr); [simpl; lia|exact Hq|].
  rewrite Hi. simpl read. destruct (js_get_in_range (a :: l) i Hr) as (v & Hv & Hn).
  exists v. split; [exact Hv|]. eapply nth_error_In. exact Hn.
Qed.

Lemma read_from_pair (x y : list num) (q : Q) :
  x <> [] -> length y = length x -> 0 <= q <= 1 ->
  from_pair x y (read x (bag_index (length x) (Fin q))) (read y (bag_index (length x) (Fin q))).
Proof.
  intros Hx Hy Hq. destruct x as [|a l]; [congruence|].
  destruct (bag_index_range (length (a :: l)) q) as (i & Hi & Hr); [simpl; lia|exact Hq|].
  rewrite Hi. simpl read.
  destruct (js_get_in_range (a :: l) i Hr) as (vx & Hvx & Hnx).
  destruct (js_get_in_range y i) as (vy & Hvy & Hny); [rewrite Hy; exact Hr|].
  exists (Z.to_nat i), vx, vy. auto.
Qed.

(** ** Loop invariants of the four resampling operations *)

Section Loops.

Variable data : list num.
Hypothesis Hdata : data <> [].

Lemma draw1_ok (cnt : nat) (acc : list (option num)) (st : dev) :
  gen_ok st -> Forall (from_data data) acc ->
  gen_ok (snd (draw1 cnt (length data) data acc st)) /\
  length (fst (draw1 cnt (length data) data acc st)) = (length acc + cnt)%nat /\
  Forall (from_data data) (fst (draw1 cnt (length data) data acc st)).
Proof.
  revert acc st. induction cnt as [|c IH]; intros acc st Hst Hacc; simpl.
  - split; [exact Hst|]. split; [lia|exact Hacc].
  - destruct (uniform_next_ok SEED st Hst) as [Hst1 (q & Hq & Hqr)].
    destruct (uniform SEED false st) as [r st1]. simpl in Hst1, Hq. subst r.
    destruct (IH (acc ++ [read data (bag_index (length data) (Fin q))]) st1 Hst1)
      as (H1 & H2 & H3).
    { apply Forall_app. split; [exact Hacc|]. constructor; [|constructor].
      apply read_from_data; assumption. }
    split; [exact H1|]. split; [rewrite H2, length_app; simpl; lia|exact H3].
Qed.

Lemma sets1_ok (cnt : nat) (out : list (list (option num))) (st : dev) :
  gen_ok st ->
  Forall (fun set => length set = length data /\ Forall (from_data data) set) out ->
  gen_ok (snd (sets1 cnt (length data) data out st)) /\
  Forall (fun set => length set = length data /\ Forall (from_data data) set)
         (fst (sets1 cnt (length data) data out st)).
Proof.
  revert out st. induction cnt as [|c IH]; intros out st Hst Hout; simpl.
  - split; assumption.
  - destruct (draw1_ok (length data) [] st Hst (List.Forall_nil _)) as (H1 & H2 & H3).
    destruct (draw1 (length data) (length data) data [] st) as [set st1].
    simpl in H1, H2, H3. apply IH; [exact H1|].
    apply Forall_app. split; [exact Hout|]. constructor; [|constructor]. split; assumption.
Qed.

Lemma pick1_ok (fuel : nat) (m : num) (tmp : list (option num)) (si : marks) (st : dev)
  (set : list (option num)) (si' : marks) (st' : dev) :
  gen_ok st -> Forall (from_data data) tmp ->
  pick1 fuel (length data) m data tmp si st = Some (set, si', st') ->
  gen_ok st' /\ Forall (from_data data) set.
Proof.
  revert tmp si st. induction fuel as [|f IH]; intros tmp si st Hst Htmp Hp; cbn -[nlt uniform] in Hp.
  - destruct (nlt _ m); [discriminate|]. injection Hp as <- <- <-. split; assumption.
  - destruct (nlt _ _).
    + destruct (uniform_next_ok SEED st Hst) as [Hst1 (q & Hq & Hqr)].
      destruct (uniform SEED false st) as [r st1]. simpl in Hst1, Hq. subst r.
      destruct (bool_decide _).
      * exact (IH _ _ _ Hst1 Htmp Hp).
      * refine (IH _ _ _ Hst1 _ Hp).
        apply Forall_app. split; [exact Htmp|]. constructor; [|constructor].
        apply read_from_data; assumption.
    + injection Hp as <- <- <-. split; assumption.
Qed.

Lemma subsets1_ok (fuel cnt : nat) (m : num) (out : list (list (option num)))
  (si : marks) (st : dev) (res : list (list (option num))) (st' : dev) :
  gen_ok st -> Forall (Forall (from_data data)) out ->
  subsets1 fuel cnt (length data) m data out si st = Some (res, st') ->
  Forall (Forall (from_data data)) res.
Proof.
  revert out si st. induction cnt as [|c IH]; intros out si st Hst Hout Hs; simpl in Hs.
  - injection Hs as <- <-. exact Hout.
  - destruct (pick1 fuel (length data) m data [] (reset si) st) as [[[set si1] st1]|] eqn:Ep;
      [|discriminate].
    destruct (pick1_ok fuel m [] (reset si) st set si1 st1 Hst (List.Forall_nil _) Ep) as [H1 H2].
    refine (IH _ _ _ H1 _ Hs).
    apply Forall_app. split; [exact Hout|]. constructor; [exact H2|constructor].
Qed.

End Loops.

Section Loops2.

Variables x y : list num.
Hypothesis Hx : x <> [].
Hypothesis Hy : length y = length x.

Lemma pairs_ok_snoc (s : samples) (q : Q) :
  (pairs_ok x y) s -> 0 <= q <= 1 ->
  (pairs_ok x y) (mkSamples (sx s ++ [read x (bag_index (length x) (Fin q))])
                      (sy s ++ [read y (bag_index (length x) (Fin q))])).
Proof.
  intros Hs Hq. unfold pairs_ok. simpl. apply Forall2_app; [exact Hs|].
  constructor; [|constructor]. apply read_from_pair; assumption.
Qed.

Lemma draw2_ok (cnt : nat) (acc : samples) (st : dev) :
  gen_ok st -> (pairs_ok x y) acc ->
  gen_ok (snd (draw2 cnt (length x) x y acc st)) /\
  length (sx (fst (draw2 cnt (length x) x y acc st))) = (length (sx acc) + cnt)%nat /\
  (pairs_ok x y) (fst (draw2 cnt (length x) x y acc st)).
Proof.
  revert acc st. induction cnt as [|c IH]; intros acc st Hst Hacc; simpl.
  - split; [exact Hst|]. split; [lia|exact Hacc].
  - destruct (uniform_next_ok SEED st Hst) as [Hst1 (q & Hq & Hqr)].
    destruct (uniform SEED false st) as [r st1]. simpl in Hst1, Hq. subst r.
    destruct (IH _ st1 Hst1 (pairs_ok_snoc acc q Hacc Hqr)) as (H1 & H2 & H3).
    split; [exact H1|]. split; [rewrite H2; simpl; rewrite length_app; simpl; lia|exact H3].
Qed.

Lemma sets2_ok (cnt : nat) (out : list samples) (st : dev) :
  gen_ok st ->
  Forall (fun s => length (sx s) = length x /\ (pairs_ok x y) s) out ->
  Forall (fun s => length (sx s) = length x /\ (pairs_ok x y) s)
         (fst (sets2 cnt (length x) x y out st)).
Proof.
  revert out st. induction cnt as [|c IH]; intros out st Hst Hout; simpl.
  - exact Hout.
  - assert (H0 : (pairs_ok x y) (mkSamples [] [])) by constructor.
    destruct (draw2_ok (length x) (mkSamples [] []) st Hst H0) as (H1 & H2 & H3).
    destruct (draw2 (length x) (length x) x y (mkSamples [] []) st) as [set st1].
    simpl in H1, H2, H3. apply IH; [exact H1|].
    apply Forall_app. split; [exact Hout|]. constructor; [|constructor]. split; assumption.
Qed.

Lemma pick2_ok (fuel : nat) (m : num) (acc : samples) (si : marks) (st : dev)
  (set : samples) (si' : marks) (st' : dev) :
  gen_ok st -> (pairs_ok x y) acc ->
  pick2 fuel (length x) m x y acc si st = Some (set, si', st') ->
  gen_ok st' /\ (pairs_ok x y) set.
Proof.
  revert acc si st. induction fuel as [|f IH]; intros acc si st Hst Hacc Hp;
    cbn -[nlt uniform] in Hp.
  - destruct (nlt _ _); [discriminate|]. injection Hp as <- <- <-. split; assumption.
  - destruct (nlt _ _).
    + destruct (uniform_next_ok SEED st Hst) as [Hst1 (q & Hq & Hqr)].
      destruct (uniform SEED false st) as [r st1]. simpl in Hst1, Hq. subst r.
      destruct (bool_decide _).
      * exact (IH _ _ _ Hst1 Hacc Hp).
      * exact (IH _ _ _ Hst1 (pairs_ok_snoc acc q Hacc Hqr) Hp).
    + injection Hp as <- <- <-. split; assumption.
Qed.

Lemma subsets2_ok (fuel cnt : nat) (m : num) (out : list samples)
  (si : marks) (st : dev) (res : list samples) (st' : dev) :
  gen_ok st -> Forall (pairs_ok x y) out ->
  subsets2 fuel cnt (length x) m x y out si st = Some (res, st') ->
  Forall (pairs_ok x y) res.
Proof.
  revert out si st. induction cnt as [|c IH]; intros out si st Hst Hout Hs; simpl in Hs.
  - injection Hs as <- <-. exact Hout.
  - destruct (pick2 fuel (length x) m x y (mkSamples [] []) (reset si) st)
      as [[[set si1] st1]|] eqn:Ep; [|discriminate].
    assert (H0 : (pairs_ok x y) (mkSamples [] [])) by constructor.
    destruct (pick2_ok fuel m _ (reset si) st set si1 st1 Hst H0 Ep) as [H1 H2].
    refine (IH _ _ _ H1 _ Hs).
    apply Forall_app. split; [exact Hout|]. constructor; [exact H2|constructor].
Qed.

End Loops2.

(** ** Claims *)

(** C2: on a non-empty source array of length [n], every index selected by
    the resampler lies in [0, n-1]; each set returned with replacement has
    exactly [n] entries, each a copy of a source entry (in 2D, the x and y
    entries at one position come from one source index); and every entry
    of a set returned without replacement (1D or 2D) is such a copy. *)
Theorem resample_indices_valid (data x y : list num) (numSets m : option num)
  (fuel : nat) (st : dev)
  (Hd : (0 < length data)%nat) (Hx : (0 < length x)%nat) (Hy : length y = length x) :
  (forall q, 0 <= q <= 1 ->
     exists i, bag_index (length data) (Fin q) = Some i /\ (0 <= i < Z.of_nat (length data))%Z) /\
  Forall (fun set => length set = length data /\ Forall (from_data data) set)
         (fst (get1DSamplesWithReplacement (Some data) numSets st)) /\
  Forall (fun s => length (sx s) = length x /\ length (sy s) = length x /\
                   Forall2 (from_pair x y) (sx s) (sy s))
         (fst (get2DSamplesWithReplacement (Some x) (Some y) numSets st)) /\
  (forall res st', get1DSamplesWithoutReplacement fuel (Some data) m numSets st = Some (res, st') ->
     Forall (Forall (from_data data)) res) /\
  (forall res st', get2DSamplesWithoutReplacement fuel (Some x) (Some y) m numSets st = Some (res, st') ->
     Forall (fun s => Forall2 (from_pair x y) (sx s) (sy s)) res).
Proof.
  assert (Hd' : data <> []) by (intros ->; simpl in Hd; lia).
  assert (Hx' : x <> []) by (intros ->; simpl in Hx; lia).
  pose proof (seed_1001_ok st) as Hseed.
  split; [|split; [|split; [|split]]].
  - intros q Hq. apply bag_index_range; [lia|exact Hq].
  - destruct data as [|a l]; [congruence|].
    unfold get1DSamplesWithReplacement. cbv beta iota zeta.
    destruct (uniform SEED true st) as [r0 st1]. simpl in Hseed.
    apply (sets1_ok (a :: l) Hd'); [exact Hseed|constructor].
  - unfold get2DSamplesWithReplacement. cbv beta iota zeta.
    replace (length x =? 0)%nat with false by (symmetry; apply Nat.eqb_neq; lia).
    rewrite Hy, Nat.eqb_refl. simpl negb. cbv iota.
    destruct (uniform SEED true st) as [r0 st1]. simpl in Hseed.
    eapply Forall_impl; [apply (sets2_ok x y Hx' Hy); [exact Hseed|constructor]|].
    intros s (H1 & H2). split; [exact H1|]. split; [|exact H2].
    rewrite <- H1. symmetry. eapply Forall2_length. exact H2.
  - intros res st' Hr. destruct data as [|a l]; [congruence|].
    unfold get1DSamplesWithoutReplacement in Hr. cbv beta iota zeta in Hr.
    destruct (uniform SEED true st) as [r0 st1]. simpl in Hseed.
    exact (subsets1_ok (a :: l) Hd' _ _ _ _ _ _ _ _ Hseed (List.Forall_nil _) Hr).
  - intros res st' Hr. unfold get2DSamplesWithoutReplacement in Hr. cbv beta iota zeta in Hr.
    replace (length x =? 0)%nat with false in Hr by (symmetry; apply Nat.eqb_neq; lia).
    rewrite Hy, Nat.eqb_refl in Hr. simpl negb in Hr. cbv iota in Hr.
    destruct (uniform SEED true st) as [r0 st1]. simpl in Hseed.
    exact (subsets2_ok x y Hx' Hy _ _ _ _ _ _ _ _ Hseed (List.Forall_nil _) Hr).
Qed.

Lemma resample_indices_valid_witness :
  (0 < length [Fin 1; Fin 2; Fin 3])%nat /\ (0 < length [Fin 0; Fin 1])%nat /\
  length [Fin 5; Fin 6] = length [Fin 0; Fin 1] /\
  Forall (fun set => length set = 3%nat /\ Forall (from_data [Fin 1; Fin 2; Fin 3]) set)
         (fst (get1DSamplesWithReplacement (Some [Fin 1; Fin 2; Fin 3]) None dev_new)).
Proof.
  split; [simpl; lia|]. split; [simpl; lia|]. split; [reflexivity|].
  apply (resample_indices_valid [Fin 1; Fin 2; Fin 3] [Fin 0; Fin 1] [Fin 5; Fin 6]
           None None 10 dev_new); simpl; lia.
Defined.

(** C1 (failing input): seeding with [2147483647 = IM] makes the generator
    state 0, so [uniform(IM, true)] returns 0, outside (0, 1), whatever the
    earlier state, and so do the following [uniform(IM, false)] calls. *)
Theorem uniform_seed_IM_returns_zero (st : dev) :
  exists q1 q2, fst (uniform (Fin IM) true st) = Fin q1 /\ q1 == 0 /\
    fst (uniform (Fin IM) false (snd (uniform (Fin IM) true st))) = Fin q2 /\ q2 == 0.
Proof.
  do 2 eexists. split; [vm_compute; reflexivity|]. split; [reflexivity|].
  split; [vm_compute; reflexivity|reflexivity].
Qed.

(** C8 (failing input): every call [uniform(start, false)] reads and
    overwrites slot 0 of the table, since the local [iy] is 0 on entry;
    for the seed 1 the first value is [893351816 / IM], and the slot a
    Bays-Durham shuffle would read next, [floor(893351816 / NDIV)], is 13. *)
Theorem uniform_next_reads_slot_zero :
  (forall (start : num) (st : dev),
     uniform start false st =
     (match iv st !! 0%Z with
      | None => NaN
      | Some y => Fin (if Qlt_bool RNMX (AM * y) then RNMX else AM * y)
      end,
      set_gen st (schrage (idum st)) (<[0%Z := schrage (idum st)]> (iv st)))) /\
  fst (uniform (Fin 1) true dev_new) = Fin (AM * 893351816) /\
  js_floor (893351816 / NDIV) = 13%Z.
Proof.
  split; [|split; [vm_compute; reflexivity|reflexivity]].
  intros start st. unfold uniform. cbv beta iota zeta. rewrite js_floor_zero.
  destruct (iv st !! 0%Z); reflexivity.
Qed.

(** C3 (failing input): [fit] reads [_x.length] before any test, so a
    [null] x raises a [TypeError]; a [null] y raises too once x has at
    least three points. *)
Theorem llsq_fit_null_raises (sqrt : Q -> Q) :
  (forall y, LLSQ.fit sqrt None y = inl LLSQ.TypeError) /\
  LLSQ.fit sqrt (Some [0; 1; 2]) None = inl LLSQ.TypeError.
Proof. split; [intro y|]; reflexivity. Qed.

(** C6: on the noiseless data [x = [0,1,2,3]], [y = [1,3,5,7]] the fit
    returns slope 2, intercept 1, chi-squared 0 and R^2 = 1, exactly. *)
Theorem llsq_fit_exact_line (sqrt : Q -> Q) :
  match LLSQ.fit sqrt (Some [0; 1; 2; 3]) (Some [1; 3; 5; 7]) with
  | inr r => LLSQ.ra r == 2 /\ LLSQ.rb r == 1 /\ LLSQ.rr r == 1 /\ LLSQ.chi2 r == 0
  | inl _ => False
  end.
Proof. vm_compute. split; [reflexivity|split; [reflexivity|split; reflexivity]]. Qed.

(** C7: [eval] on a freshly constructed estimator returns 0 for every x. *)
Theorem pllsq_eval_before_fit (x : num) : Pllsq.eval Pllsq.pllsq_new x = Fin 0.
Proof. reflexivity. Qed.

(** ** The order guard of the polynomial fit *)

Lemma accumulate_fold_len (m : nat) (yj : num) (tmp : list num) (i : nat)
  (asums b : list num) :
  length (snd (fold_left (fun '(i, asums, b) ti =>
                 (S i, alter (fun v => nadd v ti) i asums,
                  if (i <? m)%nat then alter (fun v => nadd v (nmul ti yj)) i b else b))
              tmp (i, asums, b))) = length b.
Proof.
  revert i asums b. induction tmp as [|t tmp IH]; intros i asums b; simpl; [reflexivity|].
  rewrite IH. destruct (i <? m)%nat; [apply length_alter|reflexivity].
Qed.

Lemma accumulate_len (m len : nat) (xj yj : num) (asums b : list num) :
  length (snd (Pllsq.accumulate m len xj yj (asums, b))) = length b.
Proof.
  unfold Pllsq.accumulate.
  pose proof (accumulate_fold_len m yj (Pllsq.powers len xj xj) 1
                (asums) (alter (fun v => nadd v yj) 0%nat b)) as H.
  destruct (fold_left _ _ _) as [[i' asums'] b']. simpl in *.
  rewrite H. apply length_alter.
Qed.

Lemma fit_fold_len (m len : nat) (ys xs : list num) (j : nat) (asums b : list num) :
  length (snd (snd (fold_left (fun '(j, acc) xj =>
                       (S j, Pllsq.accumulate m len xj (default NaN (ys !! j)) acc))
                    xs (j, (asums, b))))) = length b.
Proof.
  revert j asums b. induction xs as [|a xs IH]; intros j asums b; cbn [fold_left]; [reflexivity|].
  destruct (Pllsq.accumulate m len a (default NaN (ys !! j)) (asums, b)) as [asums1 b1] eqn:E.
  rewrite IH. pose proof (accumulate_len m len a (default NaN (ys !! j)) asums b) as H.
  rewrite E in H. exact H.
Qed.

Lemma coef_count_ge1 (q : Q) : 1 <= q -> Pllsq.coef_count (Fin q) = (js_round q + 1)%Z.
Proof.
  intro Hq. unfold Pllsq.coef_count.
  destruct (Qlt_bool q 1) eqn:E; [|reflexivity].
  apply Qlt_bool_iff in E. exfalso. lra.
Qed.

(** C4 (counterexample): the order is rounded, not floored.  With the
    order 1.5 and three points, [3 > floor(1.5) + 1], yet [fit] returns the
    empty result, because [Math.round(1.5) + 1 = 3] coefficients are asked. *)
Lemma pllsq_fit_order_rounded_not_floored :
  (Z.of_nat (length [Fin 0; Fin 1; Fin 2]) > Qfloor (3 # 2) + 1)%Z /\
  Pllsq.fit (fun _ b => b) (fun v => v) (Some [Fin 0; Fin 1; Fin 2]) (Some [Fin 0; Fin 1; Fin 2])
            (Fin (3 # 2)) Pllsq.pllsq_new = (Pllsq.empty, Pllsq.pllsq_new).
Proof. split; reflexivity. Qed.

(** C4 (amended): a [null] x or y returns [{coef: [], rms: 0}] and leaves the
    estimator unchanged; for a numeric order [q >= 1] the coefficient count
    is [Math.round(q) + 1], the fit returns that same empty result when
    [n <= Math.round(q) + 1], and otherwise solves the square normal-equations
    system of that size. *)
Theorem pllsq_fit_order_guard
  (solve : list (list num) -> list num -> list num) (sqrt : num -> num) :
  (forall x y m st, x = None \/ y = None ->
     Pllsq.fit solve sqrt x y m st = (Pllsq.empty, st)) /\
  (forall xs ys q st, 1 <= q -> (Z.of_nat (length xs) <= js_round q + 1)%Z ->
     Pllsq.fit solve sqrt (Some xs) (Some ys) (Fin q) st = (Pllsq.empty, st)) /\
  (forall xs ys q st, 1 <= q -> (js_round q + 1 < Z.of_nat (length xs))%Z ->
     exists a b, Pllsq.coef (fst (Pllsq.fit solve sqrt (Some xs) (Some ys) (Fin q) st)) = solve a b /\
       length a = Z.to_nat (js_round q + 1) /\
       Forall (fun row => length row = Z.to_nat (js_round q + 1)) a /\
       length b = Z.to_nat (js_round q + 1)).
Proof.
  split; [|split].
  - intros x y m st [-> | ->]; [reflexivity|]. destruct x; reflexivity.
  - intros xs ys q st Hq Hn. unfold Pllsq.fit. rewrite (coef_count_ge1 q Hq).
    replace (Z.of_nat (length xs) <=? js_round q + 1)%Z with true by lia. reflexivity.
  - intros xs ys q st Hq Hn. unfold Pllsq.fit. rewrite (coef_count_ge1 q Hq).
    replace (Z.of_nat (length xs) <=? js_round q + 1)%Z with false by lia.
    set (m' := Z.to_nat (js_round q + 1)).
    set (len := (2 * (m' - 1))%nat).
    pose proof (fit_fold_len m' len ys xs 0 (Fin (inject_Z (Z.of_nat (length xs))) :: repeat (Fin 0) len)
                  (repeat (Fin 0) m')) as Hb.
    destruct (fold_left _ xs _) as [j [asums b]]. simpl in Hb. rewrite repeat_length in Hb.
    simpl. eexists _, b. split; [reflexivity|]. split; [|split; [|exact Hb]].
    + rewrite length_map, length_seq. reflexivity.
    + apply List.Forall_forall. intros row Hrow. apply in_map_iff in Hrow.
      destruct Hrow as (i & <- & _). rewrite length_map, length_seq. reflexivity.
Qed.

Lemma pllsq_fit_order_guard_witness :
  1 <= 2 /\ (Z.of_nat (length [Fin 0; Fin 1; Fin 2]) <= js_round 2 + 1)%Z /\
  Pllsq.fit (fun _ b => b) (fun v => v) (Some [Fin 0; Fin 1; Fin 2]) (Some [Fin 0; Fin 1; Fin 2])
            (Fin 2) Pllsq.pllsq_new = (Pllsq.empty, Pllsq.pllsq_new).
Proof.
  split; [vm_compute; discriminate|]. split; [vm_compute; discriminate|].
  apply (proj1 (proj2 (pllsq_fit_order_guard (fun _ b => b) (fun v => v)))).
  - vm_compute. discriminate.
  - vm_compute. discriminate.
Defined.

(** C5 (failing input): [get2DSamplesWithoutReplacement] keeps a [NaN]
    sample size (it has no [isNaN] test), so [tmp.length < NaN] fails at
    once and each set is empty, while the sibling
    [get1DSamplesWithoutReplacement] replaces [NaN] by [floor(4/2) = 2]. *)
Theorem subsample2D_nan_size_empty_sets :
  option_map (fun '(out, _) => map (fun s => length (sx s)) out)
    (get2DSamplesWithoutReplacement 100 (Some [Fin 1; Fin 2; Fin 3; Fin 4])
       (Some [Fin 5; Fin 6; Fin 7; Fin 8]) (Some NaN) (Some (Fin 1)) dev_new) = Some [0%nat] /\
  option_map (fun '(out, _) => map (@length _) out)
    (get1DSamplesWithoutReplacement 100 (Some [Fin 1; Fin 2; Fin 3; Fin 4])
       (Some NaN) (Some (Fin 1)) dev_new) = Some [2%nat].
Proof. split; vm_compute; reflexivity. Qed.

(** C9 (failing input): the parameter block of [gamma] is guarded by
    [if (start)], so with the seed 0 neither [alpha] nor [beta] is read: the
    sampling runs on the stored shape and scale (1 and 1 on a fresh
    instance) whatever they are, where a truthy seed shifts [alpha = 0.5]
    to 1.5 and lifts [beta = 0] to 0.5. *)
Theorem gamma_seed_zero_ignores_parameters :
  (forall (ln sqrt : num -> num) fuel alpha beta init st,
     gamma ln sqrt fuel (Fin 0) alpha beta init st =
     gamma_outer ln fuel (Fin 0) init (Fin 10) (Fin 0) (Fin 0) (Fin 0) st) /\
  a_ dev_new = Fin 1 /\ b_ dev_new = Fin 1 /\
  (forall (sqrt : num -> num),
     a_ (gamma_setup sqrt (Fin 1) (Fin (1 # 2)) (Fin 0) dev_new) = Fin (3 # 2) /\
     b_ (gamma_setup sqrt (Fin 1) (Fin (1 # 2)) (Fin 0) dev_new) = Fin (1 # 2)).
Proof. split; [reflexivity|]. split; [reflexivity|]. split; [reflexivity|]. split; reflexivity. Qed.

(** ** The stored mean and standard deviation of [normal] and [logistic] *)

Lemma same_us_trans (st1 st2 st3 : dev) :
  same_us st1 st2 -> same_us st2 st3 -> same_us st1 st3.
Proof. intros [H1 H2] [H3 H4]. split; congruence. Qed.

Lemma uniform_same_us (start : num) (init : bool) (st : dev) :
  same_us st (snd (uniform start init st)).
Proof.
  unfold uniform. destruct init.
  - destruct (fill _ _ _) as [d t]. cbv beta iota zeta.
    destruct (t !! _); split; reflexivity.
  - cbv beta iota zeta. destruct (iv st !! _); split; reflexivity.
Qed.

(** Steps over a call [uniform a b st] occurring in hypothesis [H]. *)
Ltac uniform_step H st Hname :=
  match type of H with
  | context [uniform ?a ?b st] =>
      pose proof (uniform_same_us a b st) as Hname;
      destruct (uniform a b st); simpl in Hname
  end.

Lemma exp_loop_same_us fuel start init tmp st r st' :
  exp_loop fuel start init tmp st = Some (r, st') -> same_us st st'.
Proof.
  revert tmp st. induction fuel as [|f IH]; intros tmp st H; cbn -[neqb uniform] in H.
  - destruct (neqb _ _); [discriminate|]. injection H as _ <-. split; reflexivity.
  - destruct (neqb _ _).
    + uniform_step H st Hu. exact (same_us_trans _ _ _ Hu (IH _ _ H)).
    + injection H as _ <-. split; reflexivity.
Qed.

Lemma polar_loop_same_us fuel start init v1 v2 rsq st r1 r2 r3 st' :
  polar_loop fuel start init v1 v2 rsq st = Some (r1, r2, r3, st') -> same_us st st'.
Proof.
  revert v1 v2 rsq st. induction fuel as [|f IH]; intros v1 v2 rsq st H;
    cbn -[nle neqb uniform] in H.
  - destruct (_ || _); [discriminate|]. injection H as _ _ _ <-. split; reflexivity.
  - destruct (_ || _).
    + uniform_step H st Hu1. match type of H with context [uniform _ _ ?s] => uniform_step H s Hu2 end.
      exact (same_us_trans _ _ _ (same_us_trans _ _ _ Hu1 Hu2) (IH _ _ _ _ H)).
    + injection H as _ _ _ <-. split; reflexivity.
Qed.

Lemma gamma_inner_same_us fuel start init x v st r1 r2 st' :
  gamma_inner fuel start init x v st = Some (r1, r2, st') -> same_us st st'.
Proof.
  revert x v st. induction fuel as [|f IH]; intros x v st H; cbn -[nle uniform] in H.
  - destruct (nle _ _); [discriminate|]. injection H as _ _ <-. split; reflexivity.
  - destruct (nle _ _).
    + uniform_step H st Hu. exact (same_us_trans _ _ _ Hu (IH _ _ _ H)).
    + injection H as _ _ <-. split; reflexivity.
Qed.

Lemma gamma_outer_same_us (ln : num -> num) fuel start init u v x xSQ st r st' :
  gamma_outer ln fuel start init u v x xSQ st = Some (r, st') -> same_us st st'.
Proof.
  revert u v x xSQ st. induction fuel as [|f IH]; intros u v x xSQ st H;
    cbn -[nlt uniform gamma_inner] in H.
  - destruct (_ && _); [discriminate|]. injection H as _ <-. split; reflexivity.
  - destruct (_ && _).
    + destruct (gamma_inner _ _ _ _ _ st) as [[[x' v'] st1]|] eqn:Ei; [|discriminate].
      pose proof (gamma_inner_same_us _ _ _ _ _ _ _ _ _ Ei) as H1.
      uniform_step H st1 Hu.
      exact (same_us_trans _ _ _ (same_us_trans _ _ _ H1 Hu) (IH _ _ _ _ _ H)).
    + injection H as _ <-. split; reflexivity.
Qed.

Lemma logistic_loop_same_us fuel start init v st r st' :
  logistic_loop fuel start init v st = Some (r, st') -> same_us st st'.
Proof.
  revert v st. induction fuel as [|f IH]; intros v st H; cbn -[neqb uniform] in H.
  - destruct (neqb _ _); [discriminate|]. injection H as _ <-. split; reflexivity.
  - destruct (neqb _ _).
    + uniform_step H st Hu. exact (same_us_trans _ _ _ Hu (IH _ _ H)).
    + injection H as _ <-. split; reflexivity.
Qed.

Lemma us_setup_true (mu sig : num) (st : dev) :
  u_ (us_setup mu sig true st) = coerce_mu mu /\ s_ (us_setup mu sig true st) = coerce_sig sig.
Proof. split; reflexivity. Qed.

Lemma normal_us (ln sqrt : num -> num) fuel start mu sig init st r st' :
  normal ln sqrt fuel start mu sig init st = Some (r, st') ->
  same_us (us_setup mu sig init st) st'.
Proof.
  unfold normal. destruct (neqb _ _).
  - destruct (polar_loop _ _ _ _ _ _ _) as [[[[v1 v2] rsq] st2]|] eqn:E; [|discriminate].
    intro H. injection H as _ <-. apply polar_loop_same_us in E.
    destruct E as [E1 E2]. split; simpl; assumption.
  - intro H. injection H as _ <-. split; reflexivity.
Qed.

Lemma logistic_us (ln : num -> num) fuel start mu sig init st r st' :
  logistic ln fuel start mu sig init st = Some (r, st') ->
  same_us (us_setup mu sig init st) st'.
Proof.
  unfold logistic. destruct (logistic_loop _ _ _ _ _) as [[v st2]|] eqn:E; [|discriminate].
  intro H. injection H as _ <-. exact (logistic_loop_same_us _ _ _ _ _ _ _ E).
Qed.

Lemma coerce_ok (mu sig : num) :
  (exists u, coerce_mu mu = Fin u /\ 0 <= u) /\ (exists s, coerce_sig sig = Fin s /\ 1 <= s).
Proof.
  split.
  - unfold coerce_mu. destruct mu as [|q]; simpl; [exists 0; split; [reflexivity|lra]|].
    destruct (Qlt_bool q 0) eqn:E; simpl.
    + exists 0. split; [reflexivity|lra].
    + exists q. split; [reflexivity|]. apply Qlt_bool_false in E. exact E.
  - unfold coerce_sig. destruct sig as [|q]; simpl; [exists 1; split; [reflexivity|lra]|].
    destruct (Qlt_bool q 1) eqn:E; simpl.
    + exists 1. split; [reflexivity|lra].
    + exists q. split; [reflexivity|]. apply Qlt_bool_false in E. exact E.
Qed.

Lemma us_setup_ok (mu sig : num) (init : bool) (st : dev) :
  params_ok st -> params_ok (us_setup mu sig init st).
Proof.
  intro H. destruct init; [|exact H]. unfold params_ok. simpl. apply coerce_ok.
Qed.

Lemma params_ok_same_us (st st' : dev) : params_ok st -> same_us st st' -> params_ok st'.
Proof. intros [[u [Hu Hu0]] [s [Hs Hs1]]] [E1 E2]. split; [exists u|exists s]; split; congruence. Qed.

Lemma exec_params_ok (ln sqrt : num -> num) fuel c st r st' :
  params_ok st -> exec ln sqrt fuel c st = Some (r, st') -> params_ok st'.
Proof.
  intros Hok H. destruct c as [start init|start init|start mu sig init|start alpha beta init|start mu sig init];
    unfold exec in H.
  - pose proof (uniform_same_us start init st) as Hu. destruct (uniform start init st) as [v st1].
    injection H as _ <-. exact (params_ok_same_us _ _ Hok Hu).
  - unfold exponential in H. destruct (exp_loop _ _ _ _ _) as [[t st1]|] eqn:E; [|discriminate].
    injection H as _ <-. exact (params_ok_same_us _ _ Hok (exp_loop_same_us _ _ _ _ _ _ _ E)).
  - exact (params_ok_same_us _ _ (us_setup_ok mu sig init st Hok) (normal_us _ _ _ _ _ _ _ _ _ _ H)).
  - unfold gamma in H. apply gamma_outer_same_us in H.
    refine (params_ok_same_us _ _ _ H). unfold gamma_setup. destruct (truthy start); exact Hok.
  - exact (params_ok_same_us _ _ (us_setup_ok mu sig init st Hok) (logistic_us _ _ _ _ _ _ _ _ _ H)).
Qed.

Lemma run_params_ok (ln sqrt : num -> num) fuel cs st st' :
  params_ok st -> run ln sqrt fuel cs st = Some st' -> params_ok st'.
Proof.
  revert st. induction cs as [|c cs IH]; intros st Hok H; simpl in H.
  - injection H as <-. exact Hok.
  - destruct (exec ln sqrt fuel c st) as [[r st1]|] eqn:E; [|discriminate].
    exact (IH _ (exec_params_ok _ _ _ _ _ _ _ Hok E) H).
Qed.

(** C10: an initializing call of [normal] or [logistic] stores the mean 0
    when [mu] is [NaN] or negative (else [mu]) and the standard deviation 1
    when [sig] is [NaN] or below 1 (else [sig]); along any sequence of calls
    on a fresh instance, every [normal] or [logistic] call computes its
    deviate from a stored mean [>= 0] and a stored standard deviation [>= 1]. *)
Theorem normal_logistic_params_coerced (ln sqrt : num -> num) :
  (forall fuel start mu sig st r st',
     normal ln sqrt fuel start mu sig true st = Some (r, st') ->
     u_ st' = (if isNaN mu || nlt mu (Fin 0) then Fin 0 else mu) /\
     s_ st' = (if isNaN sig || nlt sig (Fin 1) then Fin 1 else sig)) /\
  (forall fuel start mu sig st r st',
     logistic ln fuel start mu sig true st = Some (r, st') ->
     u_ st' = (if isNaN mu || nlt mu (Fin 0) then Fin 0 else mu) /\
     s_ st' = (if isNaN sig || nlt sig (Fin 1) then Fin 1 else sig)) /\
  (forall fuel cs st start mu sig init r st',
     run ln sqrt fuel cs dev_new = Some st ->
     (normal ln sqrt fuel start mu sig init st = Some (r, st') \/
      logistic ln fuel start mu sig init st = Some (r, st')) ->
     params_ok st').
Proof.
  split; [|split].
  - intros fuel start mu sig st r st' H. destruct (normal_us _ _ _ _ _ _ _ _ _ _ H) as [E1 E2].
    split; [rewrite E1|rewrite E2]; reflexivity.
  - intros fuel start mu sig st r st' H. destruct (logistic_us _ _ _ _ _ _ _ _ _ H) as [E1 E2].
    split; [rewrite E1|rewrite E2]; reflexivity.
  - intros fuel cs st start mu sig init r st' Hrun Hc.
    assert (H0 : params_ok dev_new) by (split; [exists 0|exists 1]; split; (reflexivity || lra)).
    pose proof (run_params_ok _ _ _ _ _ _ H0 Hrun) as Hst.
    destruct Hc as [Hc|Hc].
    + exact (exec_params_ok ln sqrt fuel (CNormal start mu sig init) st r st' Hst Hc).
    + exact (exec_params_ok ln sqrt fuel (CLogistic start mu sig init) st r st' Hst Hc).
Qed.

Lemma normal_logistic_params_coerced_witness :
  exists r st',
    normal (fun x => x) (fun x => x) 20 (Fin 1) (Fin 3) (Fin (1 # 2)) true dev_new = Some (r, st') /\
    params_ok st'.
Proof.
  destruct (normal (fun x => x) (fun x => x) 20 (Fin 1) (Fin 3) (Fin (1 # 2)) true dev_new)
    as [[r st']|] eqn:E.
  - exists r, st'. split; [reflexivity|].
    apply (proj2 (proj2 (normal_logistic_params_coerced (fun x => x) (fun x => x)))
             20%nat [] dev_new (Fin 1) (Fin 3) (Fin (1 # 2)) true r st').
    + reflexivity.
    + left. exact E.
  - exfalso. vm_compute in E. discriminate E.
Defined.

(** ** Sums over the points of a simple linear fit *)















(** * Further properties of the modelled code *)

(** ** TSMT$LLSQ.fit *)

(** [fit] never raises on non-null arrays that are too short or of
    different lengths: it returns the zeroed result. *)
Theorem llsq_fit_short_or_mismatched_zero (sqrt : Q -> Q) :
  (forall xs y, (length xs < 3)%nat -> LLSQ.fit sqrt (Some xs) y = inr LLSQ.zero_result) /\
  (forall xs ys, length ys <> length xs ->
     LLSQ.fit sqrt (Some xs) (Some ys) = inr LLSQ.zero_result).
Proof.
  split.
  - intros xs y Hn. unfold LLSQ.fit.
    replace (length xs <? 3)%nat with true by (symmetry; apply Nat.ltb_lt; lia). reflexivity.
  - intros xs ys Hl. unfold LLSQ.fit.
    destruct (length xs <? 3)%nat; [reflexivity|].
    replace (length ys =? length xs)%nat with false by (symmetry; apply Nat.eqb_neq; exact Hl).
    reflexivity.
Qed.

Lemma llsq_fit_short_or_mismatched_zero_witness :
  (length [0; 1] < 3)%nat /\ LLSQ.fit (fun q => q) (Some [0; 1]) None = inr LLSQ.zero_result /\
  length [1; 2] <> length [0; 1; 2] /\
  LLSQ.fit (fun q => q) (Some [0; 1; 2]) (Some [1; 2]) = inr LLSQ.zero_result.
Proof.
  split; [simpl; lia|]. split; [apply (proj1 (llsq_fit_short_or_mismatched_zero (fun q => q))); simpl; lia|].
  split; [simpl; lia|]. apply (proj2 (llsq_fit_short_or_mismatched_zero (fun q => q))). simpl. lia.
Defined.





(** ** TSMT$Pllsq.eval *)





(** ** TSMT$Bllsq *)

Lemma js_round_int (k : Z) : js_round (inject_Z k) = k.
Proof.
  unfold js_round. apply Z.le_antisymm.
  - assert (H : inject_Z (Qfloor (inject_Z k + (1 # 2))) < inject_Z (k + 1)).
    { pose proof (Qfloor_le (inject_Z k + (1 # 2))). rewrite inject_Z_plus. change (inject_Z 1) with 1. lra. }
    rewrite <- Zlt_Qlt in H. lia.
  - rewrite <- (Qfloor_Z k) at 1. apply Qfloor_resp_le. lra.
Qed.

Lemma js_round_ge1 (q : Q) : 1 <= q -> (1 <= js_round q)%Z.
Proof.
  intro Hq. unfold js_round. rewrite <- (Qfloor_Z 1) at 1. apply Qfloor_resp_le.
  change (inject_Z 1) with 1. lra.
Qed.

Lemma js_round_le (q : Q) (k : Z) : q <= inject_Z k -> (js_round q <= k)%Z.
Proof.
  intro Hq. rewrite <- (js_round_int k). unfold js_round. apply Qfloor_resp_le. lra.
Qed.

Lemma Qlt_bool_int_1 (k : Z) : (1 <= k)%Z -> Qlt_bool (inject_Z k) 1 = false.
Proof.
  intro Hk. destruct (Qlt_bool _ _) eqn:E; [|reflexivity].
  apply Qlt_bool_iff in E. apply inject_Z_le in Hk. change (inject_Z 1) with 1 in Hk. lra.
Qed.

Lemma num_sets_shape (n : nat) (numSets : option num) :
  (1 <= n)%nat -> exists k, num_sets n numSets = Fin (inject_Z k) /\ (1 <= k)%Z.
Proof.
  intro Hn. unfold num_sets.
  destruct numSets as [[|q]|]; try (eexists; split; [reflexivity|lia]).
  destruct (Qlt_bool q 1) eqn:E; (eexists; split; [reflexivity|]); [lia|].
  apply js_round_ge1, Qlt_bool_false, E.
Qed.

Lemma num_sets_idem (n : nat) (numSets : option num) :
  (1 <= n)%nat -> num_sets n (Some (num_sets n numSets)) = num_sets n numSets.
Proof.
  intro Hn. destruct (num_sets_shape n numSets Hn) as (k & Hk & Hk1). rewrite Hk.
  unfold num_sets at 1. rewrite (Qlt_bool_int_1 k Hk1), js_round_int. reflexivity.
Qed.

Lemma set_count_int (k : Z) : set_count (Fin (inject_Z k)) = Z.to_nat k.
Proof. unfold set_count. rewrite Qceiling_Z. reflexivity. Qed.

Lemma size_1_shape (n : nat) (m : option num) :
  (2 <= n)%nat -> exists k, size_1 n m = Fin (inject_Z k) /\ (1 <= k <= Z.of_nat n)%Z.
Proof.
  intro Hn.
  assert (Hh : (1 <= js_floor (inject_Z (Z.of_nat n) / 2) <= Z.of_nat n)%Z).
  { unfold js_floor. split.
    - rewrite <- (Qfloor_Z 1) at 1. apply Qfloor_resp_le.
      assert (H2 : inject_Z 2 <= inject_Z (Z.of_nat n)) by (apply inject_Z_le; lia).
      change (inject_Z 1) with 1. change (inject_Z 2) with 2 in H2.
      apply Qle_shift_div_l; lra.
    - assert (H0 : 0 <= inject_Z (Z.of_nat n)) by (change 0 with (inject_Z 0); apply inject_Z_le; lia).
      pose proof (Qfloor_le (inject_Z (Z.of_nat n) / 2)) as Hf.
      assert (Hd : inject_Z (Z.of_nat n) / 2 <= inject_Z (Z.of_nat n)) by (apply Qle_shift_div_r; lra).
      rewrite Zle_Qle. lra. }
  unfold size_1. destruct m as [[|q]|]; try (eexists; split; [reflexivity|exact Hh]).
  destruct (Qlt_bool q 1 || Qlt_bool (inject_Z (Z.of_nat n)) q) eqn:E;
    (eexists; split; [reflexivity|]); [exact Hh|].
  apply orb_false_iff in E as [E1 E2]. apply Qlt_bool_false in E1, E2.
  split; [apply js_round_ge1, E1|apply js_round_le, E2].
Qed.

Lemma size_2_int (n : nat) (k : Z) :
  (1 <= k <= Z.of_nat n)%Z -> size_2 n (Some (Fin (inject_Z k))) = Fin (inject_Z k).
Proof.
  intros [Hk1 Hkn]. unfold size_2, nlt. rewrite (Qlt_bool_int_1 k Hk1).
  destruct (Qlt_bool (inject_Z (Z.of_nat n)) (inject_Z k)) eqn:E; [|reflexivity].
  apply Qlt_bool_iff in E. rewrite <- Zlt_Qlt in E. lia.
Qed.

Lemma sets2_len (cnt n : nat) (x y : list num) (out : list samples) (st : dev) :
  length (fst (sets2 cnt n x y out st)) = (length out + cnt)%nat.
Proof.
  revert out st. induction cnt as [|c IH]; intros out st; simpl; [lia|].
  destruct (draw2 n n x y (mkSamples [] []) st) as [set st1].
  rewrite IH, length_app. simpl. lia.
Qed.

Lemma pick2_len (fuel n : nat) (k : Z) (x y : list num) (acc : samples) (si : marks) (st : dev)
  (set : samples) (si' : marks) (st' : dev) :
  (Z.of_nat (length (sx acc)) <= k)%Z ->
  pick2 fuel n (Fin (inject_Z k)) x y acc si st = Some (set, si', st') ->
  Z.of_nat (length (sx set)) = k.
Proof.
  revert acc si st. induction fuel as [|f IH]; intros acc si st Hacc Hp;
    cbn -[nlt uniform] in Hp;
    destruct (nlt _ _) eqn:E; unfold nlt in E.
  - discriminate.
  - injection Hp as <- <- <-. apply Qlt_bool_false in E. rewrite <- Zle_Qle in E. lia.
  - apply Qlt_bool_iff in E. rewrite <- Zlt_Qlt in E.
    destruct (uniform SEED false st) as [r st1].
    destruct (bool_decide _).
    + exact (IH _ _ _ Hacc Hp).
    + refine (IH _ _ _ _ Hp). simpl. rewrite length_app. simpl. lia.
  - injection Hp as <- <- <-. apply Qlt_bool_false in E. rewrite <- Zle_Qle in E. lia.
Qed.

Lemma subsets2_len (fuel cnt n : nat) (k : Z) (x y : list num) (out : list samples)
  (si : marks) (st : dev) (res : list samples) (st' : dev) :
  (0 <= k)%Z -> Forall (fun s => Z.of_nat (length (sx s)) = k) out ->
  subsets2 fuel cnt n (Fin (inject_Z k)) x y out si st = Some (res, st') ->
  length res = (length out + cnt)%nat /\ Forall (fun s => Z.of_nat (length (sx s)) = k) res.
Proof.
  intro Hk. revert out si st. induction cnt as [|c IH]; intros out si st Hout Hs; simpl in Hs.
  - injection Hs as <- <-. split; [lia|exact Hout].
  - destruct (pick2 fuel n (Fin (inject_Z k)) x y (mkSamples [] []) (reset si) st)
      as [[[set si1] st1]|] eqn:Ep; [|discriminate].
    pose proof (pick2_len fuel n k x y (mkSamples [] []) (reset si) st set si1 st1 ltac:(simpl; lia) Ep) as Hl.
    destruct (IH _ _ _ ltac:(apply Forall_app; split; [exact Hout|constructor; [exact Hl|constructor]]) Hs)
      as [H1 H2].
    rewrite length_app in H1. simpl in H1. split; [lia|exact H2].
Qed.

Lemma samples_fin (xl yl : list Q) (s : samples) :
  pairs_ok (map Fin xl) (map Fin yl) s ->
  exists ps, Bllsq.fin_list (sx s) = Some (map fst ps) /\ Bllsq.fin_list (sy s) = Some (map snd ps) /\
             length ps = length (sx s) /\ Forall (pair_of xl yl) ps.
Proof.
  destruct s as [sxs sys]. unfold pairs_ok. simpl. intro H.
  induction H as [|ex ey sxs sys Hp _ (ps & Hx & Hy & Hl & Hf)].
  - exists []. repeat split; constructor.
  - destruct Hp as (i & vx & vy & Hvx & Hvy & -> & ->).
    rewrite nth_error_map in Hvx, Hvy.
    destruct (nth_error xl i) as [a|] eqn:Ea; [|discriminate].
    destruct (nth_error yl i) as [b|] eqn:Eb; [|discriminate].
    injection Hvx as <-. injection Hvy as <-.
    exists ((a, b) :: ps). simpl. rewrite Hx, Hy. repeat split; [simpl; lia|].
    constructor; [|exact Hf]. exists i. split; assumption.
Qed.

Lemma llsq_fit_some_inr (sqrt : Q -> Q) (xs ys : list Q) :
  exists r, LLSQ.fit sqrt (Some xs) (Some ys) = inr r.
Proof.
  unfold LLSQ.fit. destruct (length xs <? 3)%nat; [eexists; reflexivity|].
  destruct (negb _); eexists; reflexivity.
Qed.

Section FitLoop.

Variable sqrt : Q -> Q.
Variable P : list (Q * Q) -> Prop.

Lemma fit_loop_spec (cnt i : nat) (bag : list samples) (a b : Q) (fa : list LLSQ.result) :
  (i + cnt <= length bag)%nat -> Forall (bag_ok P) bag ->
  exists fa', Bllsq.fit_loop sqrt i cnt bag (Fin a) (Fin b) fa =
                Some (inr (Fin (fold_left (fun s f => s + LLSQ.ra f) fa' a),
                           Fin (fold_left (fun s f => s + LLSQ.rb f) fa' b), fa ++ fa')) /\
              length fa' = cnt /\
              Forall (fun f => exists ps, P ps /\ LLSQ.fit sqrt (Some (map fst ps)) (Some (map snd ps)) = inr f) fa'.
Proof.
  intros Hlen Hbag. revert i a b fa Hlen. induction cnt as [|c IH]; intros i a b fa Hlen.
  - exists []. rewrite app_nil_r. split; [reflexivity|]. split; [reflexivity|constructor].
  - cbn [Bllsq.fit_loop].
    destruct (lookup_lt_is_Some_2 bag i ltac:(lia)) as [s Hs]. rewrite Hs.
    destruct (Forall_lookup_1 _ _ _ _ Hbag Hs) as (ps & Hx & Hy & HP). rewrite Hx, Hy. cbv beta iota.
    destruct (llsq_fit_some_inr sqrt (map fst ps) (map snd ps)) as [f Hf]. rewrite Hf.
    destruct (IH (S i) (a + LLSQ.ra f) (b + LLSQ.rb f) (fa ++ [f]) ltac:(lia)) as (fa' & E & Hl & Hfa).
    exists (f :: fa'). split; [|split; [simpl; lia|constructor; [exists ps; split; assumption|exact Hfa]]].
    rewrite <- app_assoc in E. exact E.
Qed.

End FitLoop.

Lemma average_spec (sqrt : Q -> Q) (P : list (Q * Q) -> Prop) (ns : num) (bag : list samples) (st : dev) :
  (set_count ns <= length bag)%nat -> Forall (bag_ok P) bag ->
  exists r, Bllsq.average sqrt ns bag st = Some (inr r, st) /\
    length (Bllsq.fits r) = set_count ns /\
    Bllsq.ba r = ndiv (Fin (fold_left (fun s f => s + LLSQ.ra f) (Bllsq.fits r) 0)) ns /\
    Bllsq.bb r = ndiv (Fin (fold_left (fun s f => s + LLSQ.rb f) (Bllsq.fits r) 0)) ns /\
    Forall (fun f => exists ps, P ps /\ LLSQ.fit sqrt (Some (map fst ps)) (Some (map snd ps)) = inr f)
           (Bllsq.fits r).
Proof.
  intros Hl Hb. unfold Bllsq.average.
  destruct (fit_loop_spec sqrt P (set_count ns) 0 bag 0 0 [] Hl Hb) as (fa & E & Hfa & Hf).
  rewrite E. eexists. split; [reflexivity|]. simpl. repeat split; assumption.
Qed.

Lemma bag_ok_pairs (xl yl : list Q) (P : list (Q * Q) -> Prop) (s : samples) :
  pairs_ok (map Fin xl) (map Fin yl) s ->
  (forall ps, length ps = length (sx s) -> Forall (pair_of xl yl) ps -> P ps) ->
  bag_ok P s.
Proof.
  intros Hs HP. destruct (samples_fin xl yl s Hs) as (ps & Hx & Hy & Hl & Hf).
  exists ps. split; [exact Hx|]. split; [exact Hy|]. apply HP; assumption.
Qed.

Lemma average_no_bags (sqrt : Q -> Q) (n : nat) (numSets : option num) (st : dev) :
  (1 <= n)%nat ->
  Bllsq.average sqrt (num_sets n numSets) [] st = Some (inl LLSQ.TypeError, st).
Proof.
  intro Hn. destruct (num_sets_shape n numSets Hn) as (k & Hk & Hk1). rewrite Hk.
  unfold Bllsq.average. rewrite set_count_int.
  destruct (Z.to_nat k) eqn:E; [lia|]. reflexivity.
Qed.

Lemma bagFit_spec (sqrt : Q -> Q) (xl yl : list Q) (numSets : option num) (st : dev) :
  (3 <= length xl)%nat -> length yl = length xl ->
  exists r st', Bllsq.bagFit sqrt (Some xl) (Some yl) numSets st = Some (inr r, st') /\
    length (Bllsq.fits r) = set_count (num_sets (length xl) numSets) /\
    Bllsq.ba r = ndiv (Fin (fold_left (fun s f => s + LLSQ.ra f) (Bllsq.fits r) 0)) (num_sets (length xl) numSets) /\
    Bllsq.bb r = ndiv (Fin (fold_left (fun s f => s + LLSQ.rb f) (Bllsq.fits r) 0)) (num_sets (length xl) numSets) /\
    Forall (fun f => exists ps, length ps = length xl /\ Forall (pair_of xl yl) ps /\
                                LLSQ.fit sqrt (Some (map fst ps)) (Some (map snd ps)) = inr f)
           (Bllsq.fits r).
Proof.
  intros Hn Hl. unfold Bllsq.bagFit.
  replace (length xl <? 3)%nat with false by (symmetry; apply Nat.ltb_ge; lia).
  set (ns := num_sets (length xl) numSets).
  set (X := map Fin xl). set (Y := map Fin yl).
  assert (HX : length X = length xl) by apply length_map.
  assert (HY : length Y = length X) by (unfold X, Y; rewrite !length_map; exact Hl).
  assert (HXn : X <> []) by (intro E; rewrite E in HX; simpl in HX; lia).
  unfold get2DSamplesWithReplacement.
  replace (length X =? 0)%nat with false by (symmetry; apply Nat.eqb_neq; lia).
  rewrite HY, Nat.eqb_refl. cbv beta iota zeta. cbn [negb].
  pose proof (seed_1001_ok st) as Hst1.
  destruct (uniform SEED true st) as [v st1]. simpl in Hst1.
  replace (num_sets (length X) (Some ns)) with ns by (rewrite HX; symmetry; apply num_sets_idem; lia).
  pose proof (sets2_len (set_count ns) (length X) X Y [] st1) as Hlen.
  pose proof (sets2_ok X Y HXn HY (set_count ns) [] st1 Hst1 ltac:(constructor)) as Hok.
  destruct (sets2 (set_count ns) (length X) X Y [] st1) as [bag st2]. simpl in Hlen, Hok.
  set (P := fun ps : list (Q * Q) => length ps = length xl /\ Forall (pair_of xl yl) ps).
  assert (Hb : Forall (bag_ok P) bag).
  { eapply Forall_impl; [exact Hok|]. intros s [Hs1 Hs2].
    apply (bag_ok_pairs xl yl P s Hs2). intros ps H1 H2. split; [lia|exact H2]. }
  destruct (average_spec sqrt P ns bag st2 ltac:(lia) Hb) as (r & E & H1 & H2 & H3 & H4).
  exists r, st2. split; [exact E|]. split; [exact H1|]. split; [exact H2|]. split; [exact H3|].
  eapply Forall_impl; [exact H4|]. intros f (ps & [Ha Hb'] & Hc). exists ps. auto.
Qed.

Lemma subbagFit_spec (sqrt : Q -> Q) (fuel : nat) (xl yl : list Q) (m numSets : option num)
  (st : dev) (res : LLSQ.exn + Bllsq.bfit) (st' : dev) :
  (3 <= length xl)%nat -> length yl = length xl ->
  Bllsq.subbagFit sqrt fuel (Some xl) (Some yl) m numSets st = Some (res, st') ->
  exists k r, size_1 (length xl) m = Fin (inject_Z k) /\ (1 <= k <= Z.of_nat (length xl))%Z /\
    res = inr r /\
    length (Bllsq.fits r) = set_count (num_sets (length xl) numSets) /\
    Bllsq.ba r = ndiv (Fin (fold_left (fun s f => s + LLSQ.ra f) (Bllsq.fits r) 0)) (num_sets (length xl) numSets) /\
    Bllsq.bb r = ndiv (Fin (fold_left (fun s f => s + LLSQ.rb f) (Bllsq.fits r) 0)) (num_sets (length xl) numSets) /\
    Forall (fun f => exists ps, Z.of_nat (length ps) = k /\ Forall (pair_of xl yl) ps /\
                                LLSQ.fit sqrt (Some (map fst ps)) (Some (map snd ps)) = inr f)
           (Bllsq.fits r).
Proof.
  intros Hn Hl Hs. unfold Bllsq.subbagFit in Hs.
  replace (length xl <? 3)%nat with false in Hs by (symmetry; apply Nat.ltb_ge; lia).
  destruct (size_1_shape (length xl) m ltac:(lia)) as (k & Hk & Hkr).
  rewrite Hk in Hs.
  set (ns := num_sets (length xl) numSets) in *.
  set (X := map Fin xl) in *. set (Y := map Fin yl) in *.
  assert (HX : length X = length xl) by apply length_map.
  assert (HY : length Y = length X) by (unfold X, Y; rewrite !length_map; exact Hl).
  assert (HXn : X <> []) by (intro E; rewrite E in HX; simpl in HX; lia).
  unfold get2DSamplesWithoutReplacement in Hs.
  replace (length X =? 0)%nat with false in Hs by (symmetry; apply Nat.eqb_neq; lia).
  rewrite HY, Nat.eqb_refl in Hs. cbv beta iota zeta in Hs. cbn [negb] in Hs.
  pose proof (seed_1001_ok st) as Hst1.
  destruct (uniform SEED true st) as [v st1]. simpl in Hst1.
  replace (num_sets (length X) (Some ns)) with ns in Hs by (rewrite HX; symmetry; apply num_sets_idem; lia).
  rewrite HX, (size_2_int (length xl) k Hkr), <- HX in Hs.
  destruct (subsets2 fuel (set_count ns) (length X) (Fin (inject_Z k)) X Y [] ∅ st1)
    as [[bag st2]|] eqn:Eb; [|discriminate].
  pose proof (subsets2_ok X Y HXn HY fuel (set_count ns) _ [] ∅ st1 bag st2 Hst1 ltac:(constructor) Eb) as Hok.
  destruct (subsets2_len fuel (set_count ns) (length X) k X Y [] ∅ st1 bag st2 ltac:(lia) ltac:(constructor) Eb)
    as [Hlen Hks].
  simpl in Hlen.
  set (P := fun ps : list (Q * Q) => Z.of_nat (length ps) = k /\ Forall (pair_of xl yl) ps).
  assert (Hb : Forall (bag_ok P) bag).
  { apply Forall_forall. intros s Hin.
    apply (bag_ok_pairs xl yl P s (proj1 (Forall_forall _ _) Hok s Hin)).
    intros ps H1 H2. split; [rewrite H1; exact (proj1 (Forall_forall _ _) Hks s Hin)|exact H2]. }
  destruct (average_spec sqrt P ns bag st2 ltac:(lia) Hb) as (r & E & H1 & H2 & H3 & H4).
  rewrite E in Hs. injection Hs as <- <-.
  exists k, r. split; [exact Hk|]. split; [exact Hkr|]. split; [reflexivity|].
  split; [exact H1|]. split; [exact H2|]. split; [exact H3|].
  eapply Forall_impl; [exact H4|]. intros f (ps & [Ha Hb'] & Hc). exists ps. auto.
Qed.

Lemma fold_zero_results (fa : list LLSQ.result) (sel : LLSQ.result -> Q) (a : Q) :
  sel LLSQ.zero_result == 0 -> Forall (fun f => f = LLSQ.zero_result) fa ->
  fold_left (fun s f => s + sel f) fa a == a.
Proof.
  intros Hz Hfa. revert a. induction Hfa as [|f fa Hf _ IH]; intro a; simpl; [reflexivity|].
  rewrite IH, Hf, Hz. ring.
Qed.

(** [bagFit] and [subbagFit] on at least three x values and a [y] array
    of another length raise a [TypeError]: the resampler returns no bags
    and [bag[0].x] is read on [undefined]; the generator state is left
    as it was. *)
Theorem bllsq_mismatched_y_raises (sqrt : Q -> Q) (fuel : nat) (xl yl : list Q)
  (m numSets : option num) (st : dev)
  (Hn : (3 <= length xl)%nat) (Hl : length yl <> length xl) :
  Bllsq.bagFit sqrt (Some xl) (Some yl) numSets st = Some (inl LLSQ.TypeError, st) /\
  Bllsq.subbagFit sqrt fuel (Some xl) (Some yl) m numSets st = Some (inl LLSQ.TypeError, st).
Proof.
  assert (HY : negb (length (map Fin yl) =? length (map Fin xl))%nat = true)
    by (rewrite !length_map; apply negb_true_iff, Nat.eqb_neq; exact Hl).
  assert (HX : (length (map Fin xl) =? 0)%nat = false)
    by (rewrite length_map; apply Nat.eqb_neq; lia).
  unfold Bllsq.bagFit, Bllsq.subbagFit.
  replace (length xl <? 3)%nat with false by (symmetry; apply Nat.ltb_ge; lia).
  unfold get2DSamplesWithReplacement, get2DSamplesWithoutReplacement.
  rewrite HX, HY. cbv beta iota zeta.
  split; apply average_no_bags; lia.
Qed.

Lemma bllsq_mismatched_y_raises_witness :
  (3 <= length [0; 1; 2])%nat /\ length [1; 3] <> length [0; 1; 2] /\
  Bllsq.bagFit (fun q => q) (Some [0; 1; 2]) (Some [1; 3]) None dev_new = Some (inl LLSQ.TypeError, dev_new) /\
  Bllsq.subbagFit (fun q => q) 10 (Some [0; 1; 2]) (Some [1; 3]) None None dev_new =
    Some (inl LLSQ.TypeError, dev_new).
Proof.
  split; [simpl; lia|]. split; [simpl; lia|].
  apply (bllsq_mismatched_y_raises (fun q => q) 10 [0; 1; 2] [1; 3] None None dev_new); simpl; lia.
Defined.

(** On at least three points with [x] and [y] of equal length, [bagFit]
    never raises: it returns one fit per bag, [numSets] of them after
    [numSets] is coerced (to [n] when missing, [NaN] or below 1, else
    rounded); each fit is [TSMT$LLSQ.fit] of [n] pairs [(x[i], y[i])]
    drawn from the data, and [a] and [b] are the means of the fits'
    slopes and intercepts. *)
Theorem bllsq_bagFit_fits (sqrt : Q -> Q) (xl yl : list Q) (numSets : option num) (st : dev)
  (Hn : (3 <= length xl)%nat) (Hl : length yl = length xl) :
  exists r st', Bllsq.bagFit sqrt (Some xl) (Some yl) numSets st = Some (inr r, st') /\
    length (Bllsq.fits r) = set_count (num_sets (length xl) numSets) /\
    Bllsq.ba r = ndiv (Fin (fold_left (fun s f => s + LLSQ.ra f) (Bllsq.fits r) 0)) (num_sets (length xl) numSets) /\
    Bllsq.bb r = ndiv (Fin (fold_left (fun s f => s + LLSQ.rb f) (Bllsq.fits r) 0)) (num_sets (length xl) numSets) /\
    Forall (fun f => exists ps, length ps = length xl /\ Forall (pair_of xl yl) ps /\
                                LLSQ.fit sqrt (Some (map fst ps)) (Some (map snd ps)) = inr f)
           (Bllsq.fits r).
Proof. exact (bagFit_spec sqrt xl yl numSets st Hn Hl). Qed.

Lemma bllsq_bagFit_fits_witness :
  (3 <= length [0; 1; 2])%nat /\ length [1; 3; 5] = length [0; 1; 2] /\
  exists r st', Bllsq.bagFit (fun q => q) (Some [0; 1; 2]) (Some [1; 3; 5]) (Some (Fin 2)) dev_new = Some (inr r, st') /\
    length (Bllsq.fits r) = set_count (num_sets 3 (Some (Fin 2))) /\
    Bllsq.ba r = ndiv (Fin (fold_left (fun s f => s + LLSQ.ra f) (Bllsq.fits r) 0)) (num_sets 3 (Some (Fin 2))) /\
    Bllsq.bb r = ndiv (Fin (fold_left (fun s f => s + LLSQ.rb f) (Bllsq.fits r) 0)) (num_sets 3 (Some (Fin 2))) /\
    Forall (fun f => exists ps, length ps = 3%nat /\ Forall (pair_of [0; 1; 2] [1; 3; 5]) ps /\
                                LLSQ.fit (fun q => q) (Some (map fst ps)) (Some (map snd ps)) = inr f)
           (Bllsq.fits r).
Proof.
  split; [simpl; lia|]. split; [reflexivity|].
  apply (bllsq_bagFit_fits (fun q => q) [0; 1; 2] [1; 3; 5] (Some (Fin 2)) dev_new); [simpl; lia|reflexivity].
Defined.

(** When [subbagFit] on at least three points with [x] and [y] of equal
    length returns, it has not raised: [m] is coerced to an integer [k]
    with [1 <= k <= n], there is one fit per bag ([numSets] coerced as in
    [bagFit]), each fit is [TSMT$LLSQ.fit] of [k] pairs [(x[i], y[i])]
    from the data, and [a] and [b] are the means of the slopes and
    intercepts. *)
Theorem bllsq_subbagFit_fits (sqrt : Q -> Q) (fuel : nat) (xl yl : list Q) (m numSets : option num)
  (st : dev) (res : LLSQ.exn + Bllsq.bfit) (st' : dev)
  (Hn : (3 <= length xl)%nat) (Hl : length yl = length xl)
  (Hs : Bllsq.subbagFit sqrt fuel (Some xl) (Some yl) m numSets st = Some (res, st')) :
  exists k r, size_1 (length xl) m = Fin (inject_Z k) /\ (1 <= k <= Z.of_nat (length xl))%Z /\
    res = inr r /\
    length (Bllsq.fits r) = set_count (num_sets (length xl) numSets) /\
    Bllsq.ba r = ndiv (Fin (fold_left (fun s f => s + LLSQ.ra f) (Bllsq.fits r) 0)) (num_sets (length xl) numSets) /\
    Bllsq.bb r = ndiv (Fin (fold_left (fun s f => s + LLSQ.rb f) (Bllsq.fits r) 0)) (num_sets (length xl) numSets) /\
    Forall (fun f => exists ps, Z.of_nat (length ps) = k /\ Forall (pair_of xl yl) ps /\
                                LLSQ.fit sqrt (Some (map fst ps)) (Some (map snd ps)) = inr f)
           (Bllsq.fits r).
Proof. exact (subbagFit_spec sqrt fuel xl yl m numSets st res st' Hn Hl Hs). Qed.

Lemma bllsq_subbagFit_fits_witness :
  match Bllsq.subbagFit (fun q => q) 100 (Some [0; 1; 2; 3; 4; 5]) (Some [1; 3; 5; 7; 9; 11]) None None dev_new with
  | Some (res, st') =>
      (3 <= length [0; 1; 2; 3; 4; 5])%nat /\
      exists k r, size_1 6 None = Fin (inject_Z k) /\ (1 <= k <= 6)%Z /\
        res = inr r /\
        length (Bllsq.fits r) = set_count (num_sets 6 None) /\
        Bllsq.ba r = ndiv (Fin (fold_left (fun s f => s + LLSQ.ra f) (Bllsq.fits r) 0)) (num_sets 6 None) /\
        Bllsq.bb r = ndiv (Fin (fold_left (fun s f => s + LLSQ.rb f) (Bllsq.fits r) 0)) (num_sets 6 None) /\
        Forall (fun f => exists ps, Z.of_nat (length ps) = k /\ Forall (pair_of [0; 1; 2; 3; 4; 5] [1; 3; 5; 7; 9; 11]) ps /\
                                    LLSQ.fit (fun q => q) (Some (map fst ps)) (Some (map snd ps)) = inr f)
               (Bllsq.fits r)
  | None => False
  end.
Proof.
  destruct (Bllsq.subbagFit (fun q => q) 100 (Some [0; 1; 2; 3; 4; 5]) (Some [1; 3; 5; 7; 9; 11]) None None dev_new)
    as [[res st']|] eqn:E.
  - split; [simpl; lia|].
    apply (bllsq_subbagFit_fits (fun q => q) 100 [0; 1; 2; 3; 4; 5] [1; 3; 5; 7; 9; 11] None None dev_new res st');
      [simpl; lia|reflexivity|exact E].
  - vm_compute in E. discriminate E.
Defined.

(** When [m] is coerced to at most 2 (for example the default
    [floor(n/2)] on three to five points), every bag of [subbagFit] has
    fewer than three points, so every fit is the zero result and [a] and
    [b] are 0. *)
Theorem bllsq_subbagFit_small_bags (sqrt : Q -> Q) (fuel : nat) (xl yl : list Q) (m numSets : option num)
  (st : dev) (res : LLSQ.exn + Bllsq.bfit) (st' : dev)
  (Hn : (3 <= length xl)%nat) (Hl : length yl = length xl)
  (Hm : nle (size_1 (length xl) m) (Fin 2) = true)
  (Hs : Bllsq.subbagFit sqrt fuel (Some xl) (Some yl) m numSets st = Some (res, st')) :
  exists r, res = inr r /\ Forall (fun f => f = LLSQ.zero_result) (Bllsq.fits r) /\
    (exists qa, Bllsq.ba r = Fin qa /\ qa == 0) /\ (exists qb, Bllsq.bb r = Fin qb /\ qb == 0).
Proof.
  destruct (subbagFit_spec sqrt fuel xl yl m numSets st res st' Hn Hl Hs)
    as (k & r & Hk & Hkr & -> & _ & Ha & Hb & Hf).
  rewrite Hk in Hm. unfold nle in Hm. apply Qle_bool_iff in Hm.
  change 2 with (inject_Z 2) in Hm. rewrite <- Zle_Qle in Hm.
  assert (Hz : Forall (fun f => f = LLSQ.zero_result) (Bllsq.fits r)).
  { eapply Forall_impl; [exact Hf|]. intros f (ps & Hps & _ & Hfit).
    unfold LLSQ.fit in Hfit. rewrite length_map in Hfit.
    replace (length ps <? 3)%nat with true in Hfit by (symmetry; apply Nat.ltb_lt; lia).
    injection Hfit as <-. reflexivity. }
  destruct (num_sets_shape (length xl) numSets ltac:(lia)) as (j & Hj & Hj1).
  rewrite Hj in Ha, Hb. unfold ndiv in Ha, Hb.
  assert (Hj0 : Qeq_bool (inject_Z j) 0 = false).
  { apply not_true_iff_false. intro E. apply Qeq_bool_eq in E.
    assert (H1 : inject_Z 1 <= inject_Z j) by (apply inject_Z_le; lia).
    change (inject_Z 1) with 1 in H1. lra. }
  rewrite Hj0 in Ha, Hb.
  exists r. split; [reflexivity|]. split; [exact Hz|]. split.
  - eexists. split; [exact Ha|]. rewrite (fold_zero_results _ LLSQ.ra 0 ltac:(reflexivity) Hz).
    unfold Qdiv. ring.
  - eexists. split; [exact Hb|]. rewrite (fold_zero_results _ LLSQ.rb 0 ltac:(reflexivity) Hz).
    unfold Qdiv. ring.
Qed.

Lemma bllsq_subbagFit_small_bags_witness :
  match Bllsq.subbagFit (fun q => q) 100 (Some [0; 1; 2; 3]) (Some [1; 3; 5; 7]) None None dev_new with
  | Some (res, st') =>
      (3 <= length [0; 1; 2; 3])%nat /\ nle (size_1 4 None) (Fin 2) = true /\
      exists r, res = inr r /\ Forall (fun f => f = LLSQ.zero_result) (Bllsq.fits r) /\
        (exists qa, Bllsq.ba r = Fin qa /\ qa == 0) /\ (exists qb, Bllsq.bb r = Fin qb /\ qb == 0)
  | None => False
  end.
Proof.
  destruct (Bllsq.subbagFit (fun q => q) 100 (Some [0; 1; 2; 3]) (Some [1; 3; 5; 7]) None None dev_new)
    as [[res st']|] eqn:E.
  - split; [simpl; lia|]. split; [vm_compute; reflexivity|].
    apply (bllsq_subbagFit_small_bags (fun q => q) 100 [0; 1; 2; 3] [1; 3; 5; 7] None None dev_new res st');
      [simpl; lia|reflexivity|vm_compute; reflexivity|exact E].
  - vm_compute in E. discriminate E.
Defined.

(** ** TSMT$Deviates: the seed [IM] and the parameters of [gamma] *)

Lemma uniform_IM_value (st : dev) :
  neqb (fst (uniform (Fin IM) true st)) (Fin 0) = true /\
  neqb (nmul (fst (uniform (Fin IM) true st)) (nsub (Fin 1) (fst (uniform (Fin IM) true st)))) (Fin 0) = true /\
  nle (Fin 1) (nadd (nmul (nsub (nmul (Fin 2) (fst (uniform (Fin IM) true st))) (Fin 1))
                          (nsub (nmul (Fin 2) (fst (uniform (Fin IM) true st))) (Fin 1)))
                    (nmul (nsub (nmul (Fin 2) (fst (uniform (Fin IM) true st))) (Fin 1))
                          (nsub (nmul (Fin 2) (fst (uniform (Fin IM) true st))) (Fin 1)))) = true.
Proof. split; [vm_compute; reflexivity|]. split; vm_compute; reflexivity. Qed.

Lemma uniform_true_value (start : num) (st st' : dev) :
  fst (uniform start true st) = fst (uniform start true st').
Proof.
  unfold uniform. cbv beta iota zeta.
  destruct (fill _ _ _) as [d t].
  destruct (t !! js_floor (default 0 (t !! 0%Z) / NDIV)); reflexivity.
Qed.

Lemma exp_loop_IM (fuel : nat) (tmp : num) (st : dev) :
  neqb tmp (Fin 0) = true -> exp_loop fuel (Fin IM) true tmp st = None.
Proof.
  revert tmp st. induction fuel as [|f IH]; intros tmp st Ht; cbn [exp_loop]; rewrite Ht; [reflexivity|].
  destruct (uniform_IM_value st) as [H _].
  destruct (uniform (Fin IM) true st) as [t st1]. apply IH, H.
Qed.

Lemma logistic_loop_IM (fuel : nat) (v : num) (st : dev) :
  neqb (nmul v (nsub (Fin 1) v)) (Fin 0) = true -> logistic_loop fuel (Fin IM) true v st = None.
Proof.
  revert v st. induction fuel as [|f IH]; intros v st Hv; cbn [logistic_loop]; rewrite Hv; [reflexivity|].
  destruct (uniform_IM_value st) as [_ [H _]].
  destruct (uniform (Fin IM) true st) as [t st1]. apply IH, H.
Qed.

Lemma polar_loop_IM (fuel : nat) (v1 v2 rsq : num) (st : dev) :
  nle (Fin 1) rsq || neqb rsq (Fin 0) = true -> polar_loop fuel (Fin IM) true v1 v2 rsq st = None.
Proof.
  revert v1 v2 rsq st. induction fuel as [|f IH]; intros v1 v2 rsq st Hr; cbn [polar_loop]; rewrite Hr;
    [reflexivity|].
  destruct (uniform_IM_value st) as [_ [_ H1]].
  pose proof (uniform_true_value (Fin IM) st) as Hw.
  destruct (uniform (Fin IM) true st) as [w1 st1].
  specialize (Hw st1). cbn [fst] in H1, Hw.
  destruct (uniform (Fin IM) true st1) as [w2 st2]. cbn [fst] in Hw. subst w2.
  apply IH. rewrite H1. reflexivity.
Qed.

(** Seeded with [IM] ([init] true), the generator yields only 0, so
    [exponential] and [logistic] loop for ever, whatever the fuel; so does
    [normal] when no second deviate is pending ([_normVal] is 0): its two
    uniforms are then equal, [v1 = v2 = -1] and [rsq = 2]. *)
Theorem deviates_seed_IM_never_returns (ln sqrt : num -> num) :
  (forall fuel st, exponential ln fuel (Fin IM) true st = None) /\
  (forall fuel mu sig st, logistic ln fuel (Fin IM) mu sig true st = None) /\
  (forall fuel mu sig st, neqb (normVal st) (Fin 0) = true ->
     normal ln sqrt fuel (Fin IM) mu sig true st = None).
Proof.
  split; [|split].
  - intros fuel st. unfold exponential. rewrite exp_loop_IM; reflexivity.
  - intros fuel mu sig st. unfold logistic. rewrite logistic_loop_IM; reflexivity.
  - intros fuel mu sig st Hn. unfold normal.
    change (normVal (us_setup mu sig true st)) with (normVal st). rewrite Hn.
    rewrite polar_loop_IM; reflexivity.
Qed.

Lemma deviates_seed_IM_never_returns_witness :
  neqb (normVal dev_new) (Fin 0) = true /\
  normal (fun x => x) (fun x => x) 5 (Fin IM) (Fin 0) (Fin 1) true dev_new = None.
Proof.
  split; [reflexivity|].
  apply (proj2 (proj2 (deviates_seed_IM_never_returns (fun x => x) (fun x => x)))). reflexivity.
Defined.

(** When the seed argument is truthy, the parameter block of [gamma]
    stores a shape [a >= 1], a scale [b >= 0.0001] and [a1 = a - 1/3],
    whatever [alpha] and [beta] are ([NaN], negative or small). *)
Theorem gamma_setup_params (sqrt : num -> num) (start alpha beta : num) (st : dev)
  (Hs : truthy start = true) :
  exists a b, a_ (gamma_setup sqrt start alpha beta st) = Fin a /\
              b_ (gamma_setup sqrt start alpha beta st) = Fin b /\
              1 <= a /\ 1 # 10000 <= b /\
              a1 (gamma_setup sqrt start alpha beta st) = Fin (a - (1 # 3)).
Proof.
  unfold gamma_setup. rewrite Hs.
  assert (Ha : exists a0, (if isNaN alpha || nle alpha (Fin 0) then Fin 1 else alpha) = Fin a0 /\ 0 < a0).
  { destruct alpha as [|qa]; [exists 1; split; [reflexivity|lra]|].
    cbn [isNaN orb nle]. destruct (Qle_bool qa 0) eqn:E; [exists 1; split; [reflexivity|lra]|].
    exists qa. split; [reflexivity|]. apply Qnot_le_lt. intro H. apply Qle_bool_iff in H. congruence. }
  destruct Ha as (a0 & -> & Ha0).
  assert (Hb : exists b, (if isNaN beta || nlt beta (Fin (1 # 10000)) then Fin (1 # 2) else beta) = Fin b /\
                         1 # 10000 <= b).
  { destruct beta as [|qb]; [exists (1 # 2); split; [reflexivity|unfold Qle; simpl; lia]|].
    cbn [isNaN orb nlt]. destruct (Qlt_bool qb (1 # 10000)) eqn:E;
      [exists (1 # 2); split; [reflexivity|unfold Qle; simpl; lia]|].
    exists qb. split; [reflexivity|]. apply Qlt_bool_false, E. }
  destruct Hb as (b & -> & Hb).
  cbn [nlt]. destruct (Qlt_bool a0 1) eqn:E.
  - exists (a0 + 1), b. cbn [a_ b_ a1 set_gamma]. repeat split; [lra|exact Hb].
  - exists a0, b. cbn [a_ b_ a1 set_gamma]. repeat split; [apply Qlt_bool_false, E|exact Hb].
Qed.

Lemma gamma_setup_params_witness :
  truthy (Fin 1) = true /\
  exists a b, a_ (gamma_setup (fun x => x) (Fin 1) NaN (Fin (-3)) dev_new) = Fin a /\
              b_ (gamma_setup (fun x => x) (Fin 1) NaN (Fin (-3)) dev_new) = Fin b /\
              1 <= a /\ 1 # 10000 <= b /\
              a1 (gamma_setup (fun x => x) (Fin 1) NaN (Fin (-3)) dev_new) = Fin (a - (1 # 3)).
Proof.
  split; [reflexivity|]. apply (gamma_setup_params (fun x => x) (Fin 1) NaN (Fin (-3)) dev_new). reflexivity.
Defined.

(** ** TSMT$Deviates: an integer seed never yields 0 *)

Lemma pint_range (q : Q) : pint q -> 0 < q < IM.
Proof.
  intros (z & Hq & Hz). rewrite Hq. change IM with (inject_Z 2147483647).
  change 0 with (inject_Z 0). rewrite <- !Zlt_Qlt. lia.
Qed.

Lemma gen_pos_ok (st : dev) : gen_pos st -> gen_ok st.
Proof.
  intros (Hd & Ht & Hf). split; [pose proof (pint_range _ Hd); lra|]. split; [|exact Hf].
  intros j q Hj. pose proof (pint_range _ (Ht j q Hj)). lra.
Qed.

Lemma Qlt_bool_compat (p p' q q' : Q) : p == p' -> q == q' -> Qlt_bool p q = Qlt_bool p' q'.
Proof.
  intros Hp Hq. destruct (Qlt_bool p q) eqn:E1, (Qlt_bool p' q') eqn:E2; try reflexivity.
  - apply Qlt_bool_iff in E1. apply Qlt_bool_false in E2. rewrite Hp, Hq in E1. lra.
  - apply Qlt_bool_false in E1. apply Qlt_bool_iff in E2. rewrite Hp, Hq in E1. lra.
Qed.

Lemma schrage_compat (d d' : Q) : d == d' -> schrage d == schrage d'.
Proof.
  intro H. unfold schrage, js_floor.
  assert (Hk : Qfloor (d / IQ) = Qfloor (d' / IQ)) by (apply Qfloor_comp; rewrite H; reflexivity).
  rewrite Hk. set (k := inject_Z (Qfloor (d' / IQ))).
  assert (E : IA * (d - k * IQ) - IR * k == IA * (d' - k * IQ) - IR * k) by (rewrite H; reflexivity).
  rewrite (Qlt_bool_compat _ _ 0 0 E (Qeq_refl 0)).
  destruct (Qlt_bool _ 0); rewrite E; reflexivity.
Qed.

Lemma IM_coprime (z k : Z) : (0 < z < 2147483647)%Z -> (16807 * z <> 2147483647 * k)%Z.
Proof.
  intros Hz E.
  assert (Hd : (2147483647 | 16807 * z)%Z) by (exists k; lia).
  apply Z.gauss in Hd; [|vm_compute; reflexivity].
  destruct Hd as [c Hc]. lia.
Qed.

Lemma schrage_int (z : Z) : (0 < z < 2147483647)%Z -> pint (schrage (inject_Z z)).
Proof.
  intro Hz. unfold schrage, js_floor.
  assert (Hk : Qfloor (inject_Z z / IQ) = (z / 127773)%Z) by (rewrite (Zdiv_Qdiv z 127773); reflexivity).
  rewrite Hk. set (k := (z / 127773)%Z).
  pose proof (Z.div_mod z 127773 ltac:(lia)) as Hdm. pose proof (Z.mod_pos_bound z 127773 ltac:(lia)) as Hr.
  fold k in Hdm. set (r := (z mod 127773)%Z) in *.
  set (D := (16807 * z - 2147483647 * k)%Z).
  assert (E : IA * (inject_Z z - inject_Z k * IQ) - IR * inject_Z k == inject_Z D).
  { unfold D, IA, IQ, IR. rewrite <- Z.add_opp_r, inject_Z_plus, inject_Z_opp, !inject_Z_mult.
    change (inject_Z 16807) with 16807. change (inject_Z 2147483647) with 2147483647. ring. }
  pose proof (IM_coprime z k Hz) as Hne.
  rewrite (Qlt_bool_compat _ _ 0 0 E (Qeq_refl 0)).
  destruct (Qlt_bool (inject_Z D) 0) eqn:Eb.
  - apply Qlt_bool_iff in Eb. change 0 with (inject_Z 0) in Eb. rewrite <- Zlt_Qlt in Eb.
    exists (D + 2147483647)%Z. split; [rewrite E, inject_Z_plus; reflexivity|].
    unfold D in *. lia.
  - apply Qlt_bool_false in Eb. change 0 with (inject_Z 0) in Eb. rewrite <- Zle_Qle in Eb.
    exists D. split; [exact E|]. unfold D in *. lia.
Qed.

Lemma pint_schrage (d : Q) : pint d -> pint (schrage d).
Proof.
  intros (z & Hd & Hz). destruct (schrage_int z Hz) as (z' & Hs & Hz').
  exists z'. split; [rewrite (schrage_compat _ _ Hd); exact Hs|exact Hz'].
Qed.

Lemma fill_pos (cnt : nat) (d : Q) (t : gmap Z Q) :
  pint d -> (forall j q, t !! j = Some q -> pint q) ->
  let '(d', t') := fill cnt d t in
  pint d' /\ (forall j q, t' !! j = Some q -> pint q).
Proof.
  revert d t. induction cnt as [|c IH]; intros d t Hd Ht; simpl; [split; assumption|].
  apply IH; [apply pint_schrage, Hd|].
  intros j q Hj. revert Hj. destruct (Z.of_nat c <? NTAB)%Z; intro Hj; [|exact (Ht _ _ Hj)].
  destruct (decide (Z.of_nat c = j)) as [<-|Hne].
  - rewrite lookup_insert_eq in Hj. injection Hj as <-. apply pint_schrage, Hd.
  - rewrite lookup_insert_ne in Hj by exact Hne. exact (Ht _ _ Hj).
Qed.

Lemma uniform_tail_pos (st : dev) (d0 iy : Q) (t0 : gmap Z Q) :
  pint d0 -> (forall j q, t0 !! j = Some q -> pint q) ->
  (forall j, (0 <= j < NTAB)%Z -> is_Some (t0 !! j)) ->
  0 <= iy < IM ->
  gen_pos (set_gen st (schrage d0) (<[js_floor (iy / NDIV) := schrage d0]> t0)) /\
  exists y, t0 !! js_floor (iy / NDIV) = Some y /\ pint y.
Proof.
  intros Hd Ht Hfull Hiy.
  pose proof (slot_range iy Hiy) as Hj.
  split.
  - split; [apply pint_schrage, Hd|]. split.
    + intros j q Hl. simpl in Hl. destruct (decide (js_floor (iy / NDIV) = j)) as [<-|Hne].
      * rewrite lookup_insert_eq in Hl. injection Hl as <-. apply pint_schrage, Hd.
      * rewrite lookup_insert_ne in Hl by exact Hne. exact (Ht _ _ Hl).
    + intros j Hj'. simpl. destruct (decide (js_floor (iy / NDIV) = j)) as [<-|Hne].
      * rewrite lookup_insert_eq. eauto.
      * rewrite lookup_insert_ne by exact Hne. apply Hfull, Hj'.
  - destruct (Hfull _ Hj) as [y Hy]. exists y. split; [exact Hy|]. exact (Ht _ _ Hy).
Qed.

Lemma clamp_pos (y : Q) :
  pint y ->
  0 < (if Qlt_bool RNMX (AM * y) then RNMX else AM * y) /\
  (if Qlt_bool RNMX (AM * y) then RNMX else AM * y) <= RNMX.
Proof.
  intro Hy. pose proof (pint_range y Hy) as [H0 H1].
  unfold AM, RNMX, EPS, IM in *. change (1 / 2147483647) with (1 # 2147483647).
  destruct (Qlt_bool _ _) eqn:E.
  - split; [unfold Qlt; simpl; lia|lra].
  - apply Qlt_bool_false in E. split; lra.
Qed.

Lemma uniform_pre_pos (start : num) (init : bool) (st : dev) :
  gen_pre start init st ->
  gen_pos (snd (uniform start init st)) /\
  exists q, fst (uniform start init st) = Fin q /\ 0 < q <= RNMX.
Proof.
  destruct init; unfold gen_pre; intro Hpre.
  - pose proof (pint_range _ Hpre) as Hs.
    assert (Hd : 0 <= seed_of start < IM) by lra.
    assert (He : tbl_range (∅ : gmap Z Q)) by (intros j q Hl; rewrite lookup_empty in Hl; discriminate).
    assert (He' : forall j q, (∅ : gmap Z Q) !! j = Some q -> pint q)
      by (intros j q Hl; rewrite lookup_empty in Hl; discriminate).
    pose proof (fill_ok (Z.to_nat (NTAB + 7) + 1) (seed_of start) ∅ Hd He) as Hf.
    pose proof (fill_pos (Z.to_nat (NTAB + 7) + 1) (seed_of start) ∅ Hpre He') as Hp.
    unfold uniform. destruct (fill _ _ _) as [d t] eqn:Ef.
    destruct Hf as (Hd' & Htr & _ & Hfull). destruct Hp as (Hdp & Htp).
    assert (Hfull' : forall j, (0 <= j < NTAB)%Z -> is_Some (t !! j))
      by (intros j Hj; apply Hfull; unfold NTAB in *; lia).
    destruct (Hfull' 0%Z) as [y0 Hy0]; [unfold NTAB; lia|].
    assert (Hiy : 0 <= default 0 (t !! 0%Z) < IM) by (rewrite Hy0; exact (Htr _ _ Hy0)).
    destruct (uniform_tail_pos st d (default 0 (t !! 0%Z)) t Hdp Htp Hfull' Hiy)
      as [Hok (y & Hy & Hyp)].
    cbv beta iota zeta. rewrite Hy. split; [exact Hok|].
    eexists. split; [reflexivity|]. apply clamp_pos, Hyp.
  - destruct Hpre as (Hd & Ht & Hfull).
    assert (H0 : 0 <= 0 < IM) by (unfold IM; lra).
    destruct (uniform_tail_pos st (idum st) 0 (iv st) Hd Ht Hfull H0) as [Hok (y & Hy & Hyp)].
    unfold uniform. cbv beta iota zeta. rewrite Hy. split; [exact Hok|].
    eexists. split; [reflexivity|]. apply clamp_pos, Hyp.
Qed.

Lemma gen_pre_us_setup (start mu sig : num) (init : bool) (st : dev) :
  gen_pre start init st -> gen_pre start init (us_setup mu sig init st).
Proof. destruct init; unfold us_setup; auto. Qed.

Lemma RNMX_lt_1 : RNMX < 1.
Proof. unfold RNMX, EPS. lra. Qed.

(** Seeded with an integer in [1, IM - 1] (a missing seed or one below 1
    counts as 1), [uniform(start, true)] returns a number in [(0, RNMX]]
    with [RNMX < 1], never 0, and leaves a state from which every call
    [uniform(_, false)] again returns a number in [(0, RNMX]] and keeps
    that property. *)
Theorem uniform_open_interval (start : num) (init : bool) (st : dev)
  (Hpre : gen_pre start init st) :
  gen_pre start false (snd (uniform start init st)) /\
  exists q, fst (uniform start init st) = Fin q /\ 0 < q /\ q <= RNMX /\ RNMX < 1.
Proof.
  destruct (uniform_pre_pos start init st Hpre) as [Hok (q & Hq & Hq0 & Hq1)].
  split; [exact Hok|]. exists q. split; [exact Hq|]. split; [exact Hq0|]. split; [exact Hq1|exact RNMX_lt_1].
Qed.

Lemma uniform_open_interval_witness :
  gen_pre (Fin 5) true dev_new /\
  gen_pre (Fin 5) false (snd (uniform (Fin 5) true dev_new)) /\
  exists q, fst (uniform (Fin 5) true dev_new) = Fin q /\ 0 < q /\ q <= RNMX /\ RNMX < 1.
Proof.
  assert (H : gen_pre (Fin 5) true dev_new) by (simpl; exists 5%Z; split; [reflexivity|lia]).
  split; [exact H|]. apply (uniform_open_interval (Fin 5) true dev_new). exact H.
Defined.

(** From an integer seed (or a state reached from one), [exponential]
    draws exactly one uniform deviate [q], which lies in [(0, 1)], and
    returns [-ln(q)]: its loop never repeats, and any fuel of at least
    one suffices. *)
Theorem exponential_one_draw (ln : num -> num) (fuel : nat) (start : num) (init : bool) (st : dev)
  (Hpre : gen_pre start init st) :
  exists q, fst (uniform start init st) = Fin q /\ 0 < q < 1 /\
    exponential ln (S fuel) start init st = Some (nsub (Fin 0) (ln (Fin q)), snd (uniform start init st)).
Proof.
  destruct (uniform_pre_pos start init st Hpre) as [_ (q & Hq & Hq0 & Hq1)].
  pose proof RNMX_lt_1.
  exists q. split; [exact Hq|]. split; [lra|].
  unfold exponential. cbn [exp_loop]. change (neqb (Fin 0) (Fin 0)) with true. cbv iota.
  destruct (uniform start init st) as [t st1]. cbn [fst] in Hq. subst t.
  assert (Hn : neqb (Fin q) (Fin 0) = false).
  { unfold neqb. apply not_true_iff_false. intro E. apply Qeq_bool_eq in E. lra. }
  destruct fuel; cbn [exp_loop]; rewrite Hn; reflexivity.
Qed.

Lemma exponential_one_draw_witness :
  gen_pre (Fin 5) true dev_new /\
  exists q, fst (uniform (Fin 5) true dev_new) = Fin q /\ 0 < q < 1 /\
    exponential (fun x => x) 1 (Fin 5) true dev_new =
      Some (nsub (Fin 0) (Fin q), snd (uniform (Fin 5) true dev_new)).
Proof.
  assert (H : gen_pre (Fin 5) true dev_new) by (simpl; exists 5%Z; split; [reflexivity|lia]).
  split; [exact H|]. apply (exponential_one_draw (fun x => x) 0 (Fin 5) true dev_new). exact H.
Defined.

(** From an integer seed (or a state reached from one), [logistic]
    draws exactly one uniform deviate [v], which lies in [(0, 1)], and
    returns [mu + C * sig * ln(v / (1 - v))] with the stored mean and
    standard deviation: the logarithm is taken of a positive finite
    number, and any fuel of at least one suffices. *)
Theorem logistic_one_draw (ln : num -> num) (fuel : nat) (start mu sig : num) (init : bool) (st : dev)
  (Hpre : gen_pre start init st) :
  exists v, fst (uniform start init (us_setup mu sig init st)) = Fin v /\ 0 < v < 1 /\
    logistic ln (S fuel) start mu sig init st =
      Some (nadd (u_ (snd (uniform start init (us_setup mu sig init st))))
                 (nmul (nmul (Fin LOGISTIC_C) (s_ (snd (uniform start init (us_setup mu sig init st)))))
                       (ln (Fin (v / (1 - v))))),
            snd (uniform start init (us_setup mu sig init st))).
Proof.
  pose proof (gen_pre_us_setup start mu sig init st Hpre) as Hpre1.
  destruct (uniform_pre_pos start init _ Hpre1) as [_ (v & Hv & Hv0 & Hv1)].
  pose proof RNMX_lt_1.
  exists v. split; [exact Hv|]. split; [lra|].
  unfold logistic. set (st1 := us_setup mu sig init st) in *.
  cbn [logistic_loop]. change (neqb (nmul (Fin 0) (nsub (Fin 1) (Fin 0))) (Fin 0)) with true. cbv iota.
  destruct (uniform start init st1) as [t st2]. cbn [fst snd] in Hv |- *. subst t.
  assert (Hn : neqb (nmul (Fin v) (nsub (Fin 1) (Fin v))) (Fin 0) = false).
  { unfold neqb, nmul, nsub, nlift2. apply not_true_iff_false. intro E. apply Qeq_bool_eq in E.
    apply Qmult_integral in E. destruct E; lra. }
  assert (Hd : ndiv (Fin v) (nsub (Fin 1) (Fin v)) = Fin (v / (1 - v))).
  { unfold ndiv, nsub, nlift2. destruct (Qeq_bool (1 - v) 0) eqn:E; [|reflexivity].
    apply Qeq_bool_eq in E. lra. }
  destruct fuel; cbn [logistic_loop]; rewrite Hn; rewrite Hd; reflexivity.
Qed.

Lemma logistic_one_draw_witness :
  gen_pre (Fin 5) false (snd (uniform (Fin 5) true dev_new)) /\
  exists v, fst (uniform (Fin 5) false (us_setup (Fin 0) (Fin 1) false (snd (uniform (Fin 5) true dev_new)))) = Fin v /\
    0 < v < 1 /\
    logistic (fun x => x) 1 (Fin 5) (Fin 0) (Fin 1) false (snd (uniform (Fin 5) true dev_new)) =
      Some (nadd (u_ (snd (uniform (Fin 5) false (us_setup (Fin 0) (Fin 1) false (snd (uniform (Fin 5) true dev_new))))))
                 (nmul (nmul (Fin LOGISTIC_C)
                             (s_ (snd (uniform (Fin 5) false (us_setup (Fin 0) (Fin 1) false (snd (uniform (Fin 5) true dev_new)))))))
                       (Fin (v / (1 - v)))),
            snd (uniform (Fin 5) false (us_setup (Fin 0) (Fin 1) false (snd (uniform (Fin 5) true dev_new))))).
Proof.
  assert (H : gen_pre (Fin 5) false (snd (uniform (Fin 5) true dev_new))).
  { apply (uniform_pre_pos (Fin 5) true dev_new). simpl. exists 5%Z. split; [reflexivity|lia]. }
  split; [exact H|].
  apply (logistic_one_draw (fun x => x) 0 (Fin 5) (Fin 0) (Fin 1) false (snd (uniform (Fin 5) true dev_new))).
  exact H.
Defined.

(** ** TSMT$Bagging: sampling without replacement *)

Lemma NoDup_snoc {A : Type} (l : list A) (a : A) : NoDup l -> ~ In a l -> NoDup (l ++ [a]).
Proof.
  intros Hl Ha. apply NoDup_app. split; [exact Hl|]. split; [|apply NoDup_singleton].
  intros x Hx Hx'. apply list_elem_of_singleton in Hx'. subst x.
  apply Ha, list_elem_of_In, Hx.
Qed.

Lemma reset_no_index (s : marks) (i : Z) : Some i ∈ reset s <-> In i [].
Proof.
  unfold reset. rewrite elem_of_filter. simpl. split; [intros [H _]; discriminate|intros []].
Qed.

Lemma marks_snoc (si : marks) (idxs : list Z) (i : Z) :
  (forall j, Some j ∈ si <-> In j idxs) ->
  forall j, Some j ∈ ({[Some i]} ∪ si) <-> In j (idxs ++ [i]).
Proof.
  intros Hsi j. rewrite elem_of_union, elem_of_singleton, in_app_iff, <- (Hsi j). simpl.
  split.
  - intros [E|E]; [injection E as ->; right; left; reflexivity|left; exact E].
  - intros [E|[E|[]]]; [right; exact E|left; rewrite E; reflexivity].
Qed.

Lemma drawn_snoc (n : nat) (idxs : list Z) (si : marks) (i : Z) :
  drawn n idxs si -> (0 <= i < Z.of_nat n)%Z -> Some i ∉ si ->
  drawn n (idxs ++ [i]) ({[Some i]} ∪ si).
Proof.
  intros (Hnd & Hr & Hsi) Hi Hni. split; [|split].
  - apply NoDup_snoc; [exact Hnd|]. rewrite <- Hsi. exact Hni.
  - apply Forall_app. split; [exact Hr|constructor; [exact Hi|constructor]].
  - apply marks_snoc, Hsi.
Qed.

Lemma drawn_reset (n : nat) (si : marks) : drawn n [] (reset si).
Proof.
  split; [constructor|]. split; [constructor|]. intro j. apply reset_no_index.
Qed.

Lemma pick1_distinct (data : list num) (fuel : nat) (m : num) (tmp : list (option num)) (si : marks)
  (st : dev) (idxs : list Z) (set : list (option num)) (si' : marks) (st' : dev) :
  data <> [] -> gen_ok st -> tmp = map (js_get data) idxs -> drawn (length data) idxs si ->
  pick1 fuel (length data) m data tmp si st = Some (set, si', st') ->
  gen_ok st' /\ exists idxs', set = map (js_get data) idxs' /\ drawn (length data) idxs' si'.
Proof.
  intro Hdata. revert tmp si st idxs.
  induction fuel as [|f IH]; intros tmp si st idxs Hst Htmp Hd Hp; cbn -[nlt uniform] in Hp.
  - destruct (nlt _ m); [discriminate|]. injection Hp as <- <- <-. split; [exact Hst|]. eauto.
  - destruct (nlt _ _).
    + destruct (uniform_next_ok SEED st Hst) as [Hst1 (q & Hq & Hqr)].
      destruct (uniform SEED false st) as [r st1]. simpl in Hst1, Hq. subst r.
      destruct (bag_index_range (length data) q) as (i & Hi & Hir);
        [destruct data; [congruence|simpl; lia]|exact Hqr|].
      rewrite Hi in Hp. case_bool_decide as Hin.
      * exact (IH _ _ _ _ Hst1 Htmp Hd Hp).
      * refine (IH _ _ _ (idxs ++ [i]) Hst1 _ (drawn_snoc _ _ _ _ Hd Hir Hin) Hp).
        rewrite Htmp, map_app. reflexivity.
    + injection Hp as <- <- <-. split; [exact Hst|]. eauto.
Qed.

Lemma pick1_len (fuel n : nat) (k : Z) (data : list num) (tmp : list (option num)) (si : marks)
  (st : dev) (set : list (option num)) (si' : marks) (st' : dev) :
  (Z.of_nat (length tmp) <= k)%Z ->
  pick1 fuel n (Fin (inject_Z k)) data tmp si st = Some (set, si', st') ->
  Z.of_nat (length set) = k.
Proof.
  revert tmp si st. induction fuel as [|f IH]; intros tmp si st Htmp Hp;
    cbn -[nlt uniform] in Hp;
    destruct (nlt _ _) eqn:E; unfold nlt in E.
  - discriminate.
  - injection Hp as <- <- <-. apply Qlt_bool_false in E. rewrite <- Zle_Qle in E. lia.
  - apply Qlt_bool_iff in E. rewrite <- Zlt_Qlt in E.
    destruct (uniform SEED false st) as [r st1].
    destruct (bool_decide _).
    + exact (IH _ _ _ Htmp Hp).
    + refine (IH _ _ _ _ Hp). rewrite length_app. simpl. lia.
  - injection Hp as <- <- <-. apply Qlt_bool_false in E. rewrite <- Zle_Qle in E. lia.
Qed.

Lemma subsets1_distinct (data : list num) (fuel cnt : nat) (k : Z) (out : list (list (option num)))
  (si : marks) (st : dev) (res : list (list (option num))) (st' : dev) :
  data <> [] -> gen_ok st -> Forall (distinct_draw data k) out ->
  subsets1 fuel cnt (length data) (Fin (inject_Z k)) data out si st = Some (res, st') ->
  (0 <= k)%Z ->
  length res = (length out + cnt)%nat /\ Forall (distinct_draw data k) res.
Proof.
  intros Hdata. revert out si st. induction cnt as [|c IH]; intros out si st Hst Hout Hs Hk; simpl in Hs.
  - injection Hs as <- <-. split; [lia|exact Hout].
  - destruct (pick1 fuel (length data) (Fin (inject_Z k)) data [] (reset si) st)
      as [[[set si1] st1]|] eqn:Ep; [|discriminate].
    destruct (pick1_distinct data fuel _ [] (reset si) st [] set si1 st1 Hdata Hst eq_refl
                (drawn_reset _ si) Ep) as [Hst1 (idxs & Hset & Hnd & Hr & _)].
    pose proof (pick1_len fuel _ k data [] (reset si) st set si1 st1 ltac:(simpl; lia) Ep) as Hl.
    assert (Hd : distinct_draw data k set).
    { exists idxs. split; [exact Hset|]. split; [exact Hnd|]. split; [exact Hr|].
      rewrite Hset, length_map in Hl. exact Hl. }
    destruct (IH _ _ _ Hst1 ltac:(apply Forall_app; split; [exact Hout|constructor; [exact Hd|constructor]]) Hs Hk)
      as [H1 H2].
    rewrite length_app in H1. simpl in H1. split; [lia|exact H2].
Qed.

Lemma size_1_range (n : nat) (m : option num) :
  (1 <= n)%nat -> exists k, size_1 n m = Fin (inject_Z k) /\ (0 <= k <= Z.of_nat n)%Z.
Proof.
  intro Hn.
  assert (Hh : (0 <= js_floor (inject_Z (Z.of_nat n) / 2) <= Z.of_nat n)%Z).
  { unfold js_floor.
    assert (H0 : 0 <= inject_Z (Z.of_nat n)) by (change 0 with (inject_Z 0); apply inject_Z_le; lia).
    split.
    - rewrite <- (Qfloor_Z 0) at 1. apply Qfloor_resp_le. change (inject_Z 0) with 0.
      apply Qle_shift_div_l; lra.
    - pose proof (Qfloor_le (inject_Z (Z.of_nat n) / 2)) as Hf.
      assert (Hd : inject_Z (Z.of_nat n) / 2 <= inject_Z (Z.of_nat n)) by (apply Qle_shift_div_r; lra).
      rewrite Zle_Qle. lra. }
  unfold size_1. destruct m as [[|q]|]; try (eexists; split; [reflexivity|exact Hh]).
  destruct (Qlt_bool q 1 || Qlt_bool (inject_Z (Z.of_nat n)) q) eqn:E;
    (eexists; split; [reflexivity|]); [exact Hh|].
  apply orb_false_iff in E as [E1 E2]. apply Qlt_bool_false in E1, E2.
  pose proof (js_round_ge1 q E1). split; [lia|apply js_round_le, E2].
Qed.

(** [get1DSamplesWithoutReplacement] on a non-empty array of length [n],
    when it returns: [m] is coerced to an integer [k] in [0, n], there are
    [numSets] sets ([numSets] coerced as in [bagFit]), and each set holds
    the entries of the array at [k] distinct indices in [0, n): no index
    is drawn twice in a set. *)
Theorem bagging_1D_without_replacement_distinct (fuel : nat) (data : list num) (m numSets : option num)
  (st : dev) (res : list (list (option num))) (st' : dev)
  (Hd : data <> [])
  (Hs : get1DSamplesWithoutReplacement fuel (Some data) m numSets st = Some (res, st')) :
  exists k, size_1 (length data) m = Fin (inject_Z k) /\ (0 <= k <= Z.of_nat (length data))%Z /\
    length res = set_count (num_sets (length data) numSets) /\
    Forall (distinct_draw data k) res.
Proof.
  assert (Hn : (1 <= length data)%nat) by (destruct data; [congruence|simpl; lia]).
  destruct (size_1_range (length data) m Hn) as (k & Hk & Hkr).
  exists k. split; [exact Hk|]. split; [exact Hkr|].
  unfold get1DSamplesWithoutReplacement in Hs.
  destruct data as [|a l]; [congruence|]. cbv beta iota zeta in Hs.
  set (data := a :: l) in *. rewrite Hk in Hs.
  pose proof (seed_1001_ok st) as Hst1.
  destruct (uniform SEED true st) as [v st1]. simpl in Hst1.
  destruct (subsets1_distinct data fuel _ k [] ∅ st1 res st' Hd Hst1 ltac:(constructor) Hs ltac:(lia))
    as [H1 H2].
  split; [simpl in H1; exact H1|exact H2].
Qed.

Lemma bagging_1D_without_replacement_distinct_witness :
  match get1DSamplesWithoutReplacement 100 (Some [Fin 1; Fin 2; Fin 3; Fin 4]) (Some (Fin 3)) (Some (Fin 2)) dev_new with
  | Some (res, st') =>
      [Fin 1; Fin 2; Fin 3; Fin 4] <> [] /\
      exists k, size_1 4 (Some (Fin 3)) = Fin (inject_Z k) /\ (0 <= k <= 4)%Z /\
        length res = set_count (num_sets 4 (Some (Fin 2))) /\
        Forall (distinct_draw [Fin 1; Fin 2; Fin 3; Fin 4] k) res
  | None => False
  end.
Proof.
  destruct (get1DSamplesWithoutReplacement 100 (Some [Fin 1; Fin 2; Fin 3; Fin 4]) (Some (Fin 3)) (Some (Fin 2)) dev_new)
    as [[res st']|] eqn:E.
  - split; [discriminate|].
    apply (bagging_1D_without_replacement_distinct 100 [Fin 1; Fin 2; Fin 3; Fin 4] (Some (Fin 3)) (Some (Fin 2))
             dev_new res st'); [discriminate|exact E].
  - vm_compute in E. discriminate E.
Defined.

Lemma pick2_distinct (x y : list num) (fuel : nat) (m : num) (acc : samples) (si : marks)
  (st : dev) (idxs : list Z) (set : samples) (si' : marks) (st' : dev) :
  x <> [] -> gen_ok st -> sx acc = map (js_get x) idxs -> sy acc = map (js_get y) idxs ->
  drawn (length x) idxs si ->
  pick2 fuel (length x) m x y acc si st = Some (set, si', st') ->
  gen_ok st' /\ exists idxs', sx set = map (js_get x) idxs' /\ sy set = map (js_get y) idxs' /\
                              drawn (length x) idxs' si'.
Proof.
  intro Hx. revert acc si st idxs.
  induction fuel as [|f IH]; intros acc si st idxs Hst Hax Hay Hd Hp; cbn -[nlt uniform] in Hp.
  - destruct (nlt _ m); [discriminate|]. injection Hp as <- <- <-. split; [exact Hst|]. eauto.
  - destruct (nlt _ _).
    + destruct (uniform_next_ok SEED st Hst) as [Hst1 (q & Hq & Hqr)].
      destruct (uniform SEED false st) as [r st1]. simpl in Hst1, Hq. subst r.
      destruct (bag_index_range (length x) q) as (i & Hi & Hir);
        [destruct x; [congruence|simpl; lia]|exact Hqr|].
      rewrite Hi in Hp. case_bool_decide as Hin.
      * exact (IH _ _ _ _ Hst1 Hax Hay Hd Hp).
      * refine (IH _ _ _ (idxs ++ [i]) Hst1 _ _ (drawn_snoc _ _ _ _ Hd Hir Hin) Hp);
          simpl; rewrite map_app; [rewrite Hax|rewrite Hay]; reflexivity.
    + injection Hp as <- <- <-. split; [exact Hst|]. eauto.
Qed.

Lemma subsets2_distinct (x y : list num) (fuel cnt : nat) (m : num) (out : list samples)
  (si : marks) (st : dev) (res : list samples) (st' : dev) :
  x <> [] -> gen_ok st -> Forall (distinct_draw2 x y) out ->
  subsets2 fuel cnt (length x) m x y out si st = Some (res, st') ->
  Forall (distinct_draw2 x y) res.
Proof.
  intros Hx. revert out si st. induction cnt as [|c IH]; intros out si st Hst Hout Hs; simpl in Hs.
  - injection Hs as <- <-. exact Hout.
  - destruct (pick2 fuel (length x) m x y (mkSamples [] []) (reset si) st)
      as [[[set si1] st1]|] eqn:Ep; [|discriminate].
    destruct (pick2_distinct x y fuel m (mkSamples [] []) (reset si) st [] set si1 st1 Hx Hst eq_refl eq_refl
                (drawn_reset _ si) Ep) as [Hst1 (idxs & Hsx & Hsy & Hnd & Hr & _)].
    refine (IH _ _ _ Hst1 _ Hs).
    apply Forall_app. split; [exact Hout|]. constructor; [|constructor].
    exists idxs. repeat split; assumption.
Qed.

(** Every set returned by [get2DSamplesWithoutReplacement] holds the x and
    the y entries at the same indices, and these indices are distinct and
    lie in [0, n): no point is drawn twice in a set. *)
Theorem bagging_2D_without_replacement_distinct (fuel : nat) (x y : list num) (m numSets : option num)
  (st : dev) (res : list samples) (st' : dev)
  (Hs : get2DSamplesWithoutReplacement fuel (Some x) (Some y) m numSets st = Some (res, st')) :
  Forall (distinct_draw2 x y) res.
Proof.
  unfold get2DSamplesWithoutReplacement in Hs.
  destruct (length x =? 0)%nat eqn:E0; [injection Hs as <- <-; constructor|].
  destruct (negb (length y =? length x))%nat; [injection Hs as <- <-; constructor|].
  assert (Hx : x <> []) by (intro E; subst x; discriminate E0).
  pose proof (seed_1001_ok st) as Hst1.
  destruct (uniform SEED true st) as [v st1]. simpl in Hst1.
  exact (subsets2_distinct x y fuel _ _ [] ∅ st1 res st' Hx Hst1 ltac:(constructor) Hs).
Qed.

Lemma bagging_2D_without_replacement_distinct_witness :
  match get2DSamplesWithoutReplacement 100 (Some [Fin 1; Fin 2; Fin 3; Fin 4]) (Some [Fin 5; Fin 6; Fin 7; Fin 8])
          (Some (Fin 3)) (Some (Fin 2)) dev_new with
  | Some (res, st') => Forall (distinct_draw2 [Fin 1; Fin 2; Fin 3; Fin 4] [Fin 5; Fin 6; Fin 7; Fin 8]) res
  | None => False
  end.
Proof.
  destruct (get2DSamplesWithoutReplacement 100 (Some [Fin 1; Fin 2; Fin 3; Fin 4]) (Some [Fin 5; Fin 6; Fin 7; Fin 8])
              (Some (Fin 3)) (Some (Fin 2)) dev_new) as [[res st']|] eqn:E.
  - exact (bagging_2D_without_replacement_distinct 100 [Fin 1; Fin 2; Fin 3; Fin 4] [Fin 5; Fin 6; Fin 7; Fin 8]
             (Some (Fin 3)) (Some (Fin 2)) dev_new res st' E).
  - vm_compute in E. discriminate E.
Defined.
